(** * elmago-discord-bot: the link rewriters and the video relay of [bot.py]

    A shallow embedding of [bot.py].  Python text is a list of code points,
    the dictionaries returned by the fetcher are finite maps, and every call
    that leaves the process (Discord, the file system, the downloader
    subprocess) is answered by an explicit environment and recorded in an
    explicit world, so that the [try]/[except]/[finally] structure of the
    source can be followed line by line. *)

From Stdlib Require Import ZArith NArith Ascii String DecimalString.
From Equations Require Import Equations.
From stdpp Require Import gmap strings list.

Open Scope N_scope.

(** ** Python text

    A Python [str] is a sequence of Unicode code points: [len] counts code
    points and slicing cuts between them. *)

Abbreviation char := N (only parsing).
Abbreviation str := (list N) (only parsing).

Fixpoint bytes_of (s : string) : list N :=
  match s with
  | EmptyString => []
  | String a r => N_of_ascii a :: bytes_of r
  end.

(** The literals of the source are written here as UTF-8 text and decoded to
    code points. *)
Fixpoint utf8 (bs : list N) : str :=
  match bs with
  | [] => []
  | b :: r =>
    if b <? 128 then b :: utf8 r
    else if b <? 224 then
      match r with
      | c1 :: r' => ((b - 192) * 64 + (c1 - 128)) :: utf8 r'
      | _ => []
      end
    else if b <? 240 then
      match r with
      | c1 :: c2 :: r' =>
          ((b - 224) * 4096 + (c1 - 128) * 64 + (c2 - 128)) :: utf8 r'
      | _ => []
      end
    else
      match r with
      | c1 :: c2 :: c3 :: r' =>
          ((b - 240) * 262144 + (c1 - 128) * 4096 + (c2 - 128) * 64
           + (c3 - 128)) :: utf8 r'
      | _ => []
      end
  end.

Definition lit (s : string) : str := utf8 (bytes_of s).

(** [bool(s)] for a string: non-empty. *)
Definition truthy (s : str) : bool :=
  match s with
  | [] => false
  | _ :: _ => true
  end.

(** [a or b] on strings. *)
Definition str_or (a b : str) : str := if truthy a then a else b.

(** [str(n)] for an [int]. *)
Definition str_of_Z (z : Z) : str :=
  lit (NilEmpty.string_of_int (Z.to_int z)).

Definition str_of_nat (n : nat) : str := str_of_Z (Z.of_nat n).

(** [str.isspace] for one code point; the same set is what [str.strip()]
    removes and what [\s] matches in a [str] pattern. *)
Definition is_space (c : char) : bool :=
  ((9 <=? c) && (c <=? 13)) || ((28 <=? c) && (c <=? 32))
  || (c =? 133) || (c =? 160) || (c =? 5760)
  || ((8192 <=? c) && (c <=? 8202))
  || (c =? 8232) || (c =? 8233) || (c =? 8239) || (c =? 8287)
  || (c =? 12288).

Fixpoint lstrip (s : str) : str :=
  match s with
  | [] => []
  | c :: s' => if is_space c then lstrip s' else s
  end.

Definition rstrip (s : str) : str := reverse (lstrip (reverse s)).

(** [s.strip()] *)
Definition strip (s : str) : str := rstrip (lstrip s).

(** [s.split(sep)] for a separator of one code point. *)
Fixpoint split (sep : char) (s : str) : list str :=
  match s with
  | [] => [[]]
  | c :: s' =>
    if c =? sep then [] :: split sep s'
    else match split sep s' with
         | p :: ps => (c :: p) :: ps
         | [] => [[c]]
         end
  end.

(** [s.startswith(p)], returning what follows the prefix. *)
Fixpoint strip_prefix (p s : str) : option str :=
  match p with
  | [] => Some s
  | a :: p' =>
    match s with
    | [] => None
    | b :: s' => if a =? b then strip_prefix p' s' else None
    end
  end.

(** [sub in s] *)
Fixpoint contains (sub s : str) : bool :=
  match strip_prefix sub s with
  | Some _ => true
  | None =>
    match s with
    | [] => false
    | _ :: s' => contains sub s'
    end
  end.

(** The longest prefix of [s] whose characters satisfy [p], and the rest. *)
Fixpoint span (p : char -> bool) (s : str) : str * str :=
  match s with
  | [] => ([], [])
  | c :: s' =>
    if p c then let '(a, b) := span p s' in (c :: a, b) else ([], s)
  end.

Lemma strip_prefix_app p s r :
  strip_prefix p s = Some r -> s = p ++ r.
Proof.
  revert s; induction p as [|a p IH]; intros s H; simpl in *.
  - congruence.
  - destruct s as [|b s]; [discriminate|].
    destruct (N.eqb_spec a b) as [->|]; [|discriminate].
    f_equal. simpl. f_equal. by apply IH.
Qed.

Lemma strip_prefix_of_app p r : strip_prefix p (p ++ r) = Some r.
Proof.
  induction p as [|a p IH]; simpl; [done|].
  by rewrite N.eqb_refl.
Qed.

Lemma strip_prefix_shorter a p s r :
  strip_prefix (a :: p) s = Some r -> (length r < length s)%nat.
Proof.
  intros H. apply strip_prefix_app in H. subst s.
  rewrite length_app. simpl. lia.
Qed.

Lemma span_app p s : (span p s).1 ++ (span p s).2 = s.
Proof.
  induction s as [|c s IH]; simpl; [done|].
  destruct (p c); [|done].
  destruct (span p s) as [a b]; simpl in *. by rewrite IH.
Qed.

(** [inspect x] keeps the equation between [x] and the pattern it is matched
    against, for the recursive calls that are justified by it. *)
Definition inspect {A : Type} (x : A) : {y : A | x = y} := exist _ x eq_refl.

(** [s.replace(old, new)] for the non-empty [old = o :: old']: the
    occurrences of [old] are found from left to right and do not overlap. *)
Equations? replace_scan (o : char) (old' new s : str) : str
  by wf (length s) lt :=
  replace_scan o old' new [] := [];
  replace_scan o old' new (c :: s')
    with inspect (strip_prefix (o :: old') (c :: s')) := {
    | exist _ (Some rest) Hm := new ++ replace_scan o old' new rest;
    | exist _ None _ := c :: replace_scan o old' new s' }.
Proof.
  - apply strip_prefix_shorter in Hm. exact Hm.
  - simpl. lia.
Qed.

(** [s.replace(old, new)]; with an empty [old], Python puts [new] before
    every character and at the end. *)
Definition replace (old new s : str) : str :=
  match old with
  | [] => new ++ flat_map (fun c => c :: new) s
  | o :: old' => replace_scan o old' new s
  end.

(** ** [suppress_url_previews]

    [url_pattern = r'(https?://[^\s<>]+)'] *)

(** [[^\s<>]] *)
Definition url_body_char (c : char) : bool :=
  negb (is_space c) && negb (c =? 60) && negb (c =? 62).

(** [https?://] at the start of [s].  The optional [s] is greedy: it is
    taken first, and given back when [://] does not follow it. *)
Definition url_scheme (s : str) : option (str * str) :=
  match strip_prefix (lit "http") s with
  | None => None
  | Some r =>
    match strip_prefix (lit "s://") r with
    | Some r2 => Some (lit "https://", r2)
    | None =>
      match strip_prefix (lit "://") r with
      | Some r2 => Some (lit "http://", r2)
      | None => None
      end
    end
  end.

(** One attempt of the whole pattern at the start of [s]: the text matched
    (group 1) and what follows it.  [[^\s<>]+] is greedy and nothing comes
    after it in the pattern, so it takes the longest run, which must not be
    empty. *)
Definition url_at (s : str) : option (str * str) :=
  match url_scheme s with
  | None => None
  | Some (scheme, r) =>
    let '(body, rest) := span url_body_char r in
    if truthy body then Some (scheme ++ body, rest) else None
  end.

(** [wrap_url]: [f"<{url}>"] *)
Definition wrap_url (url : str) : str := lit "<" ++ url ++ lit ">".

Lemma url_scheme_app s scheme r :
  url_scheme s = Some (scheme, r) ->
  s = scheme ++ r /\ (scheme = lit "https://" \/ scheme = lit "http://").
Proof.
  unfold url_scheme. intros H.
  destruct (strip_prefix (lit "http") s) as [r1|] eqn:E1; [|discriminate].
  apply strip_prefix_app in E1.
  destruct (strip_prefix (lit "s://") r1) as [r2|] eqn:E2.
  - apply strip_prefix_app in E2. injection H as <- <-. subst. split; [done|by left].
  - destruct (strip_prefix (lit "://") r1) as [r2|] eqn:E3; [|discriminate].
    apply strip_prefix_app in E3. injection H as <- <-. subst. split; [done|by right].
Qed.

Lemma url_at_app s u rest : url_at s = Some (u, rest) -> s = u ++ rest.
Proof.
  unfold url_at. intros H.
  destruct (url_scheme s) as [[scheme r]|] eqn:Es; [|discriminate].
  apply url_scheme_app in Es as [-> _].
  pose proof (span_app url_body_char r) as Hsp.
  destruct (span url_body_char r) as [body rest']; simpl in Hsp.
  destruct (truthy body); [|discriminate].
  injection H as <- <-. by rewrite <- Hsp, (assoc_L (++)).
Qed.

Lemma url_at_shorter s u rest :
  url_at s = Some (u, rest) -> (length rest < length s)%nat.
Proof.
  intros H. pose proof (url_at_app _ _ _ H) as ->.
  unfold url_at in H.
  destruct (url_scheme _) as [[scheme r]|] eqn:Es; [|discriminate].
  apply url_scheme_app in Es as [_ Hs].
  destruct (span url_body_char r) as [body rest'].
  destruct (truthy body); [|discriminate].
  injection H as <- <-. rewrite !length_app.
  destruct Hs as [-> | ->]; vm_compute length; lia.
Qed.

(** [re.sub(url_pattern, wrap_url, text)]: the text is scanned from left to
    right; where the pattern matches, the match is replaced and the scan
    goes on after it; elsewhere the character is copied. *)
Equations? re_sub_url (s : str) : str by wf (length s) lt :=
  re_sub_url [] := [];
  re_sub_url (c :: s') with inspect (url_at (c :: s')) := {
    | exist _ (Some (u, rest)) Hm := wrap_url u ++ re_sub_url rest;
    | exist _ None _ := c :: re_sub_url s' }.
Proof.
  - apply url_at_shorter in Hm. exact Hm.
  - simpl. lia.
Qed.

Definition suppress_url_previews (text : str) : str :=
  if negb (truthy text) then text else re_sub_url text.

(** A URL, as the pattern sees it: a scheme and a non-empty body without
    white space and without angle brackets. *)
Definition is_url (u : list N) : Prop :=
  exists body,
    (u = lit "http://" ++ body \/ u = lit "https://" ++ body)
    /\ body <> []
    /\ Forall (fun c => url_body_char c = true) body.

(** The text after a URL does not continue it. *)
Definition url_end (rest : list N) : Prop :=
  match rest with
  | [] => True
  | c :: _ => url_body_char c = false
  end.

(** ** Exceptions

    Every value here is an instance of a subclass of [Exception], as the
    calls of [bot.py] raise them; what the handlers look at is whether it is
    a [TimeoutError], whether it is a [discord.HTTPException] (with its
    [status] and [text]), its class name and its [str].  The cancellation
    of the task and the exit of the interpreter, which are not [Exception]s
    and come from the scheduler, are not part of this model. *)
Inductive exn_kind : Type :=
  | IsTimeout
  | IsHTTP (status : Z) (text : str)
  | IsOther.

Record exn : Type := Exn {
  kind : exn_kind;
  (** [type(e).__name__] *)
  type_name : str;
  (** [str(e)] *)
  exn_str : str
}.

Definition ValueError (msg : str) : exn := Exn IsOther (lit "ValueError") msg.

(** [KeyError(key)]; its [str] is the [repr] of the key. *)
Definition KeyError (key : string) : exn :=
  Exn IsOther (lit "KeyError") (lit "'" ++ lit key ++ lit "'").

Definition FileExistsError (msg : str) : exn :=
  Exn IsOther (lit "FileExistsError") msg.

(** ** Discord requests *)

Record embed : Type := Embed {
  embed_description : str;
  embed_color : Z;
  (** [set_author(name=..., icon_url=...)] *)
  embed_author : option (str * option str);
  (** [set_footer(text=...)] *)
  embed_footer : option str
}.

Inductive request : Type :=
  (** [interaction.response.send_message(content, ephemeral=...)] *)
  | SendMessage (content : str) (ephemeral : bool)
  (** [interaction.response.defer()] *)
  | DeferResponse
  (** [interaction.followup.send(content, ephemeral=...)] *)
  | FollowupSend (content : str) (ephemeral : bool)
  (** [interaction.followup.send(embed=embed, file=discord.File(f, filename))]
      with [f] the file opened at [path] *)
  | FollowupFile (e : embed) (path filename : str).

(** ** The world outside the process *)

Inductive child : Type :=
  | Running (argv : list str)
  | Exited (argv : list str) (returncode : Z).

Inductive event : Type :=
  | EDiscord (r : request)
  | EMkdtemp
  | ERmtree (d : str)
  | ESpawn (argv : list str)
  | ECommunicate (pid : nat)
  | EGlob (dir pattern : str)
  | EStat (path : str)
  | EOpen (path : str).

Record world : Type := World {
  (** the temporary directories that exist *)
  w_dirs : gset (list N);
  (** the child processes started so far; a pid is a position here *)
  w_children : list child;
  (** the calls that left the process, oldest first *)
  w_trace : list event
}.

(** What [asyncio.wait_for(process.communicate(), timeout=60)] comes back
    with: the child exited in time, with its exit status and what each of
    [stdout.decode()] and [stderr.decode()] gives; or the 60 seconds passed;
    or the wait itself failed. *)
Inductive waited : Type :=
  | Completed (returncode : Z) (stdout stderr : exn + str)
  | TimedOut
  | WaitFailed (e : exn).

(** The answers of the outside world.  Calls that can happen more than once
    in a run are answered by their rank among the earlier calls of the same
    sort. *)
Record env : Type := {
  (** the [k]-th request to Discord: [None] when it is accepted *)
  discord_answer : nat -> option exn;
  (** [tempfile.mkdtemp()]: the name it settles on *)
  mkdtemp_answer : exn + str;
  (** [asyncio.create_subprocess_exec(...)] *)
  spawn_answer : option exn;
  wait_answer : waited;
  (** the [k]-th [Path(dir).glob(pattern)] *)
  glob_answer : nat -> exn + list str;
  (** the [k]-th [Path(p).stat().st_size] *)
  stat_answer : nat -> exn + Z;
  (** [open(video_path, "rb")] *)
  open_answer : option exn;
  (** [shutil.rmtree(temp_dir)] *)
  rmtree_answer : option exn
}.

Definition is_discord (ev : event) : bool :=
  match ev with EDiscord _ => true | _ => false end.
Definition is_glob (ev : event) : bool :=
  match ev with EGlob _ _ => true | _ => false end.
Definition is_stat (ev : event) : bool :=
  match ev with EStat _ => true | _ => false end.
Definition is_rmtree (ev : event) : bool :=
  match ev with ERmtree _ => true | _ => false end.
Definition is_upload (ev : event) : bool :=
  match ev with EDiscord (FollowupFile _ _ _) => true | _ => false end.

(** How many events of a sort a trace holds. *)
Definition count (p : event -> bool) (t : list event) : nat :=
  length (filter (fun ev => p ev = true) t).

Definition log (ev : event) (w : world) : world :=
  World (w_dirs w) (w_children w) (w_trace w ++ [ev]).

(** ** Computations: a result or a raised exception, and a new world *)

Inductive result (A : Type) : Type :=
  | Ret (a : A)
  | Raise (e : exn).
Arguments Ret {A} a.
Arguments Raise {A} e.

Definition M (A : Type) : Type := world -> result A * world.

Definition ret {A} (a : A) : M A := fun w => (Ret a, w).
Definition raise {A} (e : exn) : M A := fun w => (Raise e, w).
Definition bind {A B} (m : M A) (k : A -> M B) : M B := fun w =>
  match m w with
  | (Ret a, w') => k a w'
  | (Raise e, w') => (Raise e, w')
  end.

(** [try: body / except ...: handler].  [handler e] is [None] when no
    [except] clause matches [e]. *)
Definition try_except {A} (body : M A) (handler : exn -> option (M A)) : M A :=
  fun w =>
    match body w with
    | (Ret a, w') => (Ret a, w')
    | (Raise e, w') =>
      match handler e with
      | Some h => h w'
      | None => (Raise e, w')
      end
    end.

(** [try: body / finally: fin].  [fin] runs however [body] ends; an
    exception of [fin] replaces the outcome of [body]. *)
Definition try_finally {A} (body : M A) (fin : M unit) : M A :=
  fun w =>
    let '(r, w1) := body w in
    match fin w1 with
    | (Ret _, w2) => (r, w2)
    | (Raise e, w2) => (Raise e, w2)
    end.

(** A value of the environment that is either an exception or an answer. *)
Definition answer {A} (a : exn + A) : M A :=
  match a with
  | inl e => raise e
  | inr x => ret x
  end.

Definition fails (a : option exn) : M unit :=
  match a with
  | Some e => raise e
  | None => ret tt
  end.

#[local] Instance M_bind : MBind M := fun A B k m => bind m k.
#[local] Instance M_ret : MRet M := fun A a => ret a.

(** [w'] has the directories of [w] and no further call of [rmtree]. *)
Definition same_dirs (w w' : world) : Prop :=
  w_dirs w' = w_dirs w
  /\ count is_rmtree (w_trace w') = count is_rmtree (w_trace w).

(** A computation that neither creates nor removes a directory. *)
Definition quiet {A} (m : M A) : Prop :=
  forall w r w', m w = (r, w') -> same_dirs w w'.

(** A computation that returns, whatever the world does. *)
Definition safe (m : M unit) : Prop :=
  forall w, exists w', m w = (Ret tt, w').

(** ** What the interpreter supplies

    Three things that [bot.py] relies on are fixed by the Python runtime and
    not by the program: the Unicode tables behind [\w] and [\d] outside
    ASCII, the text of a floating-point division formatted with [.1f], and
    the wording of the [ValueError] raised by an unpacking of too many
    values.  They are parameters of the development. *)
Class Runtime := {
  (** [c.isalnum()], asked for code points from 128 on *)
  unicode_alnum : char -> bool;
  (** [c.isdecimal()], asked for code points from 128 on *)
  unicode_decimal : char -> bool;
  (** [f"{file_size / (1024 * 1024):.1f}"] *)
  megabytes_1f : Z -> str;
  (** [str(e)] for the [ValueError] of [a, b, c, d, e, f, g = parts] when
      [parts] has [n > 7] items *)
  too_many_values : nat -> str
}.

Section Bot.
Context `{RT : Runtime}.

(** [\d] *)
Definition is_digit (c : char) : bool :=
  if c <? 128 then (48 <=? c) && (c <=? 57) else unicode_decimal c.

(** [\w] *)
Definition is_word (c : char) : bool :=
  if c <? 128 then
    ((48 <=? c) && (c <=? 57)) || ((65 <=? c) && (c <=? 90))
    || ((97 <=? c) && (c <=? 122)) || (c =? 95)
  else unicode_alnum c.

(** ** [extract_tweet_id] *)

(** A literal [p] of a pattern, then the rest [k] of the pattern. *)
Definition then_ (p : str) (k : str -> option str) (s : str) : option str :=
  match strip_prefix p s with
  | Some r => k r
  | None => None
  end.

(** [(?:twitter\.com|x\.com)] followed by the rest [k] of a pattern: the
    second alternative is tried when the first one, or what follows it,
    fails. *)
Definition after_domain (k : str -> option str) (s : str) : option str :=
  match then_ (lit "twitter.com") k s with
  | Some g => Some g
  | None => then_ (lit "x.com") k s
  end.

(** [(\d+)] at the end of a pattern: the longest run of digits, not empty. *)
Definition digits_group (s : str) : option str :=
  let '(d, _) := span is_digit s in
  if truthy d then Some d else None.

(** [(?:twitter\.com|x\.com)/(?:\w+)/status/(\d+)] at the start of [s],
    giving group 1.  [\w+] is followed by [/], which is not a word
    character, so only its longest run can be followed by a match. *)
Definition status_pattern : str -> option str :=
  after_domain
    (then_ (lit "/")
       (fun r1 =>
          let '(w, r2) := span is_word r1 in
          if truthy w then then_ (lit "/status/") digits_group r2
          else None)).

(** [(?:twitter\.com|x\.com)/i/(?:web/)?status/(\d+)] at the start of [s],
    giving group 1.  The optional [web/] is tried first. *)
Definition web_status_pattern : str -> option str :=
  after_domain
    (then_ (lit "/i/")
       (fun r1 =>
          match then_ (lit "web/") (then_ (lit "status/") digits_group) r1 with
          | Some g => Some g
          | None => then_ (lit "status/") digits_group r1
          end)).

(** [re.search(pattern, url)]: the first position where the pattern
    matches. *)
Fixpoint re_search (pattern : str -> option str) (s : str) : option str :=
  match pattern s with
  | Some g => Some g
  | None =>
    match s with
    | [] => None
    | _ :: s' => re_search pattern s'
    end
  end.

Definition extract_tweet_id (url : str) : option str :=
  match re_search status_pattern url with
  | Some tweet_id => Some tweet_id
  | None => re_search web_status_pattern url
  end.

(** ** Calls to the outside *)

Context (E : env).

Definition discord (r : request) : M unit := fun w =>
  fails (discord_answer E (count is_discord (w_trace w))) (log (EDiscord r) w).

(** [tempfile.mkdtemp()] creates a directory that did not exist. *)
Definition mkdtemp : M str := fun w =>
  match mkdtemp_answer E with
  | inl e => (Raise e, log EMkdtemp w)
  | inr d =>
    if decide (d ∈ w_dirs w) then
      (Raise (FileExistsError d), log EMkdtemp w)
    else
      (Ret d, World ({[ d ]} ∪ w_dirs w) (w_children w) (w_trace w ++ [EMkdtemp]))
  end.

(** [shutil.rmtree(d)] removes the directory, or raises and leaves it. *)
Definition rmtree (d : str) : M unit := fun w =>
  match rmtree_answer E with
  | Some e => (Raise e, log (ERmtree d) w)
  | None =>
    (Ret tt, World (w_dirs w ∖ {[ d ]}) (w_children w) (w_trace w ++ [ERmtree d]))
  end.

(** [asyncio.create_subprocess_exec] on the unpacked [argv]: the pid of
    the child. *)
Definition create_subprocess_exec (argv : list str) : M nat := fun w =>
  match spawn_answer E with
  | Some e => (Raise e, log (ESpawn argv) w)
  | None =>
    (Ret (length (w_children w)),
     World (w_dirs w) (w_children w ++ [Running argv]) (w_trace w ++ [ESpawn argv]))
  end.

Definition exit_child (rc : Z) (c : child) : child :=
  match c with
  | Running argv => Exited argv rc
  | Exited argv rc' => Exited argv rc'
  end.

(** [asyncio.wait_for(process.communicate(), timeout=60)].  When the child
    exits in time its entry becomes [Exited]; on a timeout [wait_for]
    cancels the pending [communicate()] and raises, and nothing is sent to
    the child. *)
Definition wait_for_communicate (pid : nat) : M (Z * (exn + str) * (exn + str)) :=
  fun w =>
    match wait_answer E with
    | Completed rc out err =>
      (Ret (rc, out, err),
       World (w_dirs w) (alter (exit_child rc) pid (w_children w))
             (w_trace w ++ [ECommunicate pid]))
    | TimedOut =>
      (Raise (Exn IsTimeout (lit "TimeoutError") []), log (ECommunicate pid) w)
    | WaitFailed e => (Raise e, log (ECommunicate pid) w)
    end.

Definition glob (dir pattern : str) : M (list str) := fun w =>
  answer (glob_answer E (count is_glob (w_trace w))) (log (EGlob dir pattern) w).

Definition stat_size (path : str) : M Z := fun w =>
  answer (stat_answer E (count is_stat (w_trace w))) (log (EStat path) w).

Definition open_rb (path : str) : M unit := fun w =>
  fails (open_answer E) (log (EOpen path) w).

(** ** [download_twitter_video] *)

(** [sep = "␟"] *)
Definition sep : char := 9247.

Definition nl : str := [10].

(** [Path(dir) / name], as text; [dir] is a directory name without a
    trailing separator, as [tempfile.mkdtemp] returns it. *)
Definition path_join (dir name : str) : str := dir ++ lit "/" ++ name.

(** [{"error": error_msg}] *)
Definition error_dict (error_msg : str) : gmap string (list N) :=
  {[ "error"%string := error_msg ]}.

Definition format_pref : str :=
  lit "http-2176/http-832/http-288/best[protocol*=https][ext=mp4]/best".

Definition print_template : str :=
  lit "after_video:%(url)s" ++ [sep] ++ lit "%(title)s" ++ [sep]
  ++ lit "%(thumbnail)s" ++ [sep] ++ lit "%(uploader)s" ++ [sep]
  ++ lit "%(uploader_id)s" ++ [sep] ++ lit "%(description)s" ++ [sep]
  ++ lit "%(upload_date)s".

Definition cmd_args (url output_dir tweet_id : str) : list str :=
  let output_template := path_join output_dir (tweet_id ++ lit ".%(ext)s") in
  [ lit "yt-dlp"; lit "-f"; format_pref; lit "--no-playlist";
    lit "--print"; print_template; lit "-o"; output_template; url ].

(** [video_url, title, thumbnail, uploader, uploader_id, description,
    upload_date = parts] *)
Definition unpack7 (parts : list str)
  : M (str * str * str * str * str * str * str) :=
  match parts with
  | [a; b; c; d; e; f; g] => ret (a, b, c, d, e, f, g)
  | _ =>
    if (length parts <? 7)%nat then
      raise (ValueError (lit "not enough values to unpack (expected 7, got "
                         ++ str_of_nat (length parts) ++ lit ")"))
    else raise (ValueError (too_many_values (length parts)))
  end.

Definition success_dict
  (video_path title thumbnail uploader uploader_id description upload_date : str)
  : gmap string (list N) :=
  <[ "file_path"%string := video_path ]>
  (<[ "title"%string := strip title ]>
  (<[ "thumbnail"%string := strip thumbnail ]>
  (<[ "uploader"%string := strip uploader ]>
  (<[ "uploader_id"%string := strip uploader_id ]>
  (<[ "description"%string := strip description ]>
  (<[ "upload_date"%string := strip upload_date ]> ∅)))))).

Definition is_failure (d : gmap string (list N)) : Prop :=
  exists error_msg, error_msg <> [] /\ d = error_dict error_msg.

Definition is_success (d : gmap string (list N)) : Prop :=
  exists video_path title thumbnail uploader uploader_id description upload_date,
    d = success_dict video_path title thumbnail uploader uploader_id
          description upload_date.

Definition msg_no_id : str :=
  lit "No se pudo extraer el ID del tweet de la URL".

Definition msg_exit (returncode : Z) (stderr_text : str) : str :=
  lit "yt-dlp falló con código " ++ str_of_Z returncode
  ++ lit ". Error: " ++ stderr_text.

Definition msg_parts (parts : list str) (output : str) : str :=
  lit "Output de yt-dlp inesperado (esperaba 7 partes, obtuvo "
  ++ str_of_nat (length parts) ++ lit "): " ++ take 200 output.

Definition msg_no_file (output_dir : str) : str :=
  lit "No se encontró archivo de video descargado en " ++ output_dir.

Definition msg_timeout : str :=
  lit "Timeout (60s) al descargar video de Twitter".

Definition msg_exception (e : exn) : str :=
  lit "Excepción al descargar video: " ++ type_name e
  ++ lit ": " ++ exn_str e.

(** The body of the [try] of [download_twitter_video]. *)
Definition run_downloader (url output_dir tweet_id : str)
  : M (gmap string (list N)) :=
  process ← create_subprocess_exec (cmd_args url output_dir tweet_id);
  '(returncode, stdout, stderr) ← wait_for_communicate process;
  stdout_decoded ← answer stdout;
  let stdout_text := strip stdout_decoded in
  stderr_decoded ← answer stderr;
  let stderr_text := strip stderr_decoded in
  if negb (returncode =? 0)%Z then
    ret (error_dict (msg_exit returncode stderr_text))
  else
    let output := stdout_text in
    let parts := split sep output in
    if (length parts <? 7)%nat then
      ret (error_dict (msg_parts parts output))
    else
      '(video_url, title, thumbnail, uploader, uploader_id, description,
        upload_date) ← unpack7 parts;
      video_files ← glob output_dir (tweet_id ++ lit ".*");
      match video_files with
      | [] =>
        all_files ← glob output_dir (lit "*");
        ret (error_dict (msg_no_file output_dir))
      | video_path :: _ =>
        file_size ← stat_size video_path;
        ret (success_dict video_path title thumbnail uploader uploader_id
               description upload_date)
      end.

(** The [except asyncio.TimeoutError] and [except Exception] clauses of
    [download_twitter_video]. *)
Definition download_handler (e : exn) : option (M (gmap string (list N))) :=
  match kind e with
  | IsTimeout => Some (ret (error_dict msg_timeout))
  | _ => Some (ret (error_dict (msg_exception e)))
  end.

Definition download_twitter_video (url output_dir : str)
  : M (gmap string (list N)) :=
  match extract_tweet_id url with
  | None | Some [] => ret (error_dict msg_no_id)
  | Some tweet_id =>
    try_except (run_downloader url output_dir tweet_id) download_handler
  end.

(** ** [replace_twitter], the [/vx] command *)

(** [max_size = 50 * 1024 * 1024] *)
Definition max_size : Z := 50 * 1024 * 1024.

(** [d[key]] *)
Definition dict_index (d : gmap string (list N)) (key : string) : M str :=
  match d !! key with
  | Some v => ret v
  | None => raise (KeyError key)
  end.

(** [d.get(key, "")] *)
Definition dict_get (d : gmap string (list N)) (key : string) : str :=
  default [] (d !! key).

(** [Path(p).name]: the last component of a path. *)
Definition path_name (p : str) : str :=
  default [] (last (filter (fun c => c ≠ []) (split 47 p))).

(** [f"{header}\n```\n{error_msg[:1800]}\n```"] *)
Definition fenced (header error_msg : str) : str :=
  header ++ nl ++ lit "```" ++ nl ++ take 1800 error_msg ++ nl ++ lit "```".

Definition msg_invalid_url : str := lit "URL tan invalida como vos.".

Definition msg_fetch_error (error_msg : str) : str :=
  fenced (lit "❌ **Error al descargar video:**") error_msg.

Definition msg_oversize (file_size : Z) : str :=
  lit "❌ El video es demasiado grande (" ++ megabytes_1f file_size
  ++ lit "MB). Discord tiene un límite de 50MB.".

Definition msg_upload_error (status : Z) (text : str) : str :=
  fenced (lit "❌ **Error al subir el video a Discord:**")
         (lit "Error HTTP de Discord: " ++ str_of_Z status ++ lit " - " ++ text).

Definition msg_unexpected (e : exn) : str :=
  fenced (lit "❌ **Error al procesar el video:**")
         (lit "Excepción inesperada: " ++ type_name e ++ lit ": " ++ exn_str e)
  ++ nl ++ lit "Revisá los logs para más detalles.".

Definition author_name (video_data : gmap string (list N)) : str :=
  str_or (strip (dict_get video_data "uploader")) (lit "Desconocido").

Definition author_handle (video_data : gmap string (list N)) : str :=
  strip (dict_get video_data "uploader_id").

Definition display_handle (video_data : gmap string (list N)) : str :=
  if truthy (author_handle video_data)
  then lit "@" ++ author_handle video_data else [].

(** The [description] variable after the lines that format it. *)
Definition format_description (video_data : gmap string (list N)) : str :=
  let description := strip (dict_get video_data "description") in
  let description :=
    if truthy description && (280 <? length description)%nat
    then take 280 description else description in
  if truthy description then suppress_url_previews description
  else description.

Definition summary_embed (video_data : gmap string (list N)) (file_size : Z)
  : embed :=
  let name := author_name video_data in
  let handle := author_handle video_data in
  Embed
    (str_or (format_description video_data) (lit "Video de X"))
    0x1DA1F2
    (if truthy name && truthy handle then
       Some (name ++ lit " (" ++ display_handle video_data ++ lit ")",
             Some (lit "https://unavatar.io/x/" ++ handle))
     else if truthy name then Some (name, None)
     else None)
    (Some (lit "Video • " ++ megabytes_1f file_size ++ lit "MB")).

(** The inner [try] of the command: the upload and its
    [except discord.HTTPException]. *)
Definition upload_video (e : embed) (video_path : str) : M unit :=
  try_except
    (open_rb video_path;;
     discord (FollowupFile e video_path (path_name video_path)))
    (fun err =>
       match kind err with
       | IsHTTP status text =>
         Some (discord (FollowupSend (msg_upload_error status text) true))
       | _ => None
       end).

(** From the size check to the upload. *)
Definition relay_video (video_data : gmap string (list N)) : M unit :=
  video_path ← dict_index video_data "file_path";
  file_size ← stat_size video_path;
  if (file_size >? max_size)%Z then
    discord (FollowupSend (msg_oversize file_size) true)
  else
    upload_video (summary_embed video_data file_size) video_path.

(** The body of the outer [try]. *)
Definition fetch_and_relay (url temp_dir : str) : M unit :=
  video_data ← download_twitter_video url temp_dir;
  match video_data !! "error"%string with
  | Some error_msg => discord (FollowupSend (msg_fetch_error error_msg) true)
  | None => relay_video video_data
  end.

(** The outer [except Exception]: report, and swallow a failing report. *)
Definition report_unexpected (e : exn) : M unit :=
  try_except (discord (FollowupSend (msg_unexpected e) true))
             (fun send_error => Some (ret tt)).

(** The [finally]: remove the directory, and swallow a failing removal. *)
Definition cleanup (temp_dir : str) : M unit :=
  try_except (rmtree temp_dir) (fun e => Some (ret tt)).

Definition replace_twitter (url : str) : M unit :=
  if negb (contains (lit "twitter.com") url || contains (lit "x.com") url) then
    discord (SendMessage msg_invalid_url true)
  else
    discord DeferResponse;;
    temp_dir ← mkdtemp;
    try_finally
      (try_except (fetch_and_relay url temp_dir)
                  (fun e => Some (report_unexpected e)))
      (cleanup temp_dir).

(** ** [replace_instagram] and [replace_reddit], the [/ig] and [/rx] commands *)

Definition replace_instagram (url : str) : M unit :=
  if contains (lit "instagram.com") url then
    let new_url := replace (lit "instagram.com") (lit "kkinstagram.com") url in
    discord (SendMessage new_url false)
  else
    discord (SendMessage msg_invalid_url true).

Definition replace_reddit (url : str) : M unit :=
  if contains (lit "reddit.com") url then
    let new_url := replace (lit "reddit.com") (lit "rxddit.com") url in
    discord (SendMessage new_url false)
  else
    discord (SendMessage msg_invalid_url true).

End Bot.

(** Every step of a fetch went well: the conditions under which
    [download_twitter_video] reaches its last [return]. *)
Definition nothing_failed `{RT : Runtime} (E : env) (url : list N) (w : world)
  : Prop :=
  exists tweet_id out err video_path files size,
    extract_tweet_id url = Some tweet_id
    /\ spawn_answer E = None
    /\ wait_answer E = Completed 0 (inr out) (inr err)
    /\ length (split sep (strip out)) = 7%nat
    /\ glob_answer E (count is_glob (w_trace w)) = inr (video_path :: files)
    /\ stat_answer E (count is_stat (w_trace w)) = inr size.

(** * A runtime and an outside world for worked runs *)

(** [a / b] rounded to the nearest integer, ties to even. *)
Definition round_half_even (a b : Z) : Z :=
  let q := (a / b)%Z in
  let r := (a mod b)%Z in
  if (2 * r <? b)%Z then q
  else if (b <? 2 * r)%Z then (q + 1)%Z
  else if Z.even q then q else (q + 1)%Z.

(** The text of [file_size / (1024 * 1024)] under [.1f].  The quotient by
    a power of two is exact in a double for sizes below 2^53, and the
    formatting rounds it correctly. *)
Definition megabytes_exact (file_size : Z) : list N :=
  let tenths := round_half_even (10 * file_size) 1048576 in
  str_of_Z (tenths / 10) ++ lit "." ++ str_of_Z (tenths mod 10).

(** A runtime for texts that stay within ASCII, with the wording that
    CPython gave the unpacking error up to 3.13. *)
Definition runtime_ascii : Runtime := {|
  unicode_alnum := fun _ => false;
  unicode_decimal := fun _ => false;
  megabytes_1f := megabytes_exact;
  too_many_values := fun _ => lit "too many values to unpack (expected 7)"
|}.

#[local] Existing Instance runtime_ascii.

Definition world0 : world := World ∅ [] [].

Definition url0 : list N := lit "https://x.com/user/status/123".
Definition tmp0 : list N := lit "/tmp/tmpabc".
Definition video0 : list N := lit "/tmp/tmpabc/123.mp4".

(** The line that yt-dlp prints for a post with a link in its text. *)
Definition stdout7 : list N :=
  lit "https://video.twimg.com/v.mp4␟Un video␟https://pbs.twimg.com/t.jpg␟Ana␟ana␟hola https://t.co/x fin␟20240101" ++ nl.

(** One field short, and one field too many: a description that holds the
    separator itself. *)
Definition stdout6 : list N := lit "https://video.twimg.com/v.mp4␟Un video␟https://pbs.twimg.com/t.jpg␟Ana␟ana␟hola".
Definition stdout8 : list N :=
  lit "https://video.twimg.com/v.mp4␟Un video␟https://pbs.twimg.com/t.jpg␟Ana␟ana␟uno ␟ dos␟20240101".

(** An outside world in which Discord accepts every request, the temporary
    directory is [tmp0] and the downloaded file is [video0]; the outcome of
    the wait, the size of the file and the outcome of [rmtree] are left
    open. *)
Definition env_of (wait : waited) (file_size : Z) (rm : option exn) : env := {|
  discord_answer := fun _ => None;
  mkdtemp_answer := inr tmp0;
  spawn_answer := None;
  wait_answer := wait;
  glob_answer := fun _ => inr [video0];
  stat_answer := fun _ => inr file_size;
  open_answer := None;
  rmtree_answer := rm
|}.

Definition env_ok : env := env_of (Completed 0 (inr stdout7) (inr [])) 3000000 None.

Definition env_short : env := env_of (Completed 0 (inr stdout6) (inr [])) 3000000 None.

Definition env_long : env := env_of (Completed 0 (inr stdout8) (inr [])) 3000000 None.

Definition env_timeout : env := env_of TimedOut 3000000 None.

Definition env_rmtree_fails : env :=
  env_of (Completed 0 (inr stdout7) (inr [])) 3000000
         (Some (Exn IsOther (lit "PermissionError") (lit "[Errno 13] Permission denied"))).

Definition env_ceiling : env :=
  env_of (Completed 0 (inr stdout7) (inr [])) 52428800 None.

Definition env_over : env :=
  env_of (Completed 0 (inr stdout7) (inr [])) 52428801 None.

(** A post without text, and a post whose uploader has a handle and no
    display name: what yt-dlp prints, and what the fetch returns. *)
Definition stdout_no_text : list N :=
  lit "https://video.twimg.com/v.mp4␟Un video␟␟Ana␟ana␟␟20240101".

Definition stdout_no_name : list N :=
  lit "https://video.twimg.com/v.mp4␟Un video␟␟␟ana␟hola␟20240101".

Definition env_no_text : env :=
  env_of (Completed 0 (inr stdout_no_text) (inr [])) 3000000 None.

Definition env_no_name : env :=
  env_of (Completed 0 (inr stdout_no_name) (inr [])) 3000000 None.

Definition record_no_text : gmap string (list N) :=
  success_dict video0 (lit "Un video") [] (lit "Ana") (lit "ana") []
    (lit "20240101").

Definition record_no_name : gmap string (list N) :=
  success_dict video0 (lit "Un video") [] [] (lit "ana") (lit "hola")
    (lit "20240101").

Definition record_ok : gmap string (list N) :=
  success_dict video0 (lit "Un video") [] (lit "Ana") (lit "ana") (lit "hola")
    (lit "20240101").

(** No URL begins at any of the first [n] positions of [s]. *)
Fixpoint url_free_prefix (n : nat) (s : list N) : bool :=
  match n with
  | O => true
  | S n' =>
    match url_at s with
    | Some _ => false
    | None =>
      match s with
      | [] => true
      | _ :: s' => url_free_prefix n' s'
      end
    end
  end.

(** * Properties *)

(** ** Text *)

Lemma contains_unfold sub s :
  contains sub s =
  match strip_prefix sub s with
  | Some _ => true
  | None => match s with [] => false | _ :: s' => contains sub s' end
  end.
Proof. by destruct s. Qed.

Lemma contains_true_iff sub s :
  contains sub s = true <-> exists a b, s = a ++ sub ++ b.
Proof.
  split.
  - induction s as [|c s IH]; rewrite contains_unfold.
    + destruct (strip_prefix sub []) as [r|] eqn:Hp; [|discriminate].
      intros _. exists [], r. by apply strip_prefix_app in Hp.
    + destruct (strip_prefix sub (c :: s)) as [r|] eqn:Hp.
      * intros _. exists [], r. by apply strip_prefix_app in Hp.
      * intros H. destruct (IH H) as (a & b & ->). by exists (c :: a), b.
  - intros (a & b & ->). induction a as [|c a IH].
    + cbn [app]. by rewrite contains_unfold, strip_prefix_of_app.
    + rewrite contains_unfold. cbn [app]. rewrite IH.
      by destruct (strip_prefix sub _).
Qed.

Lemma contains_false_iff sub s :
  contains sub s = false <-> forall a b, s <> a ++ sub ++ b.
Proof.
  split.
  - intros H a b Hs.
    assert (contains sub s = true) by (apply contains_true_iff; eauto).
    congruence.
  - intros H. destruct (contains sub s) eqn:Hc; [|done].
    apply contains_true_iff in Hc as (a & b & Hs). by destruct (H a b).
Qed.

(** ** The link rewriters *)

Lemma replace_scan_match o old' new s rest :
  strip_prefix (o :: old') s = Some rest ->
  replace_scan o old' new s = new ++ replace_scan o old' new rest.
Proof.
  intros H. destruct s as [|c s]; [discriminate|].
  rewrite replace_scan_equation_2.
  destruct (inspect (strip_prefix (o :: old') (c :: s))) as [[rest'|] Hy].
  - rewrite replace_scan_clause_2_equation_1. congruence.
  - congruence.
Qed.

Lemma replace_scan_skip o old' new c s :
  strip_prefix (o :: old') (c :: s) = None ->
  replace_scan o old' new (c :: s) = c :: replace_scan o old' new s.
Proof.
  intros H. rewrite replace_scan_equation_2.
  destruct (inspect (strip_prefix (o :: old') (c :: s))) as [[rest'|] Hy].
  - congruence.
  - by rewrite replace_scan_clause_2_equation_2.
Qed.

(** Where the first character of [old] does not occur before an occurrence
    of [old], that occurrence is the first one to be replaced. *)
Lemma replace_first o old' new a b :
  o ∉ a ->
  replace (o :: old') new (a ++ (o :: old') ++ b)
  = a ++ new ++ replace (o :: old') new b.
Proof.
  cbn [replace]. induction a as [|c a IH]; intros Ha.
  - cbn [app]. apply replace_scan_match. apply (strip_prefix_of_app (o :: old')).
  - apply not_elem_of_cons in Ha as [Hne Ha].
    cbn [app]. rewrite replace_scan_skip; [f_equal; by apply IH|].
    simpl. by destruct (N.eqb_spec o c).
Qed.

(** C9.  [/ig] answers "https://instagram.com/p/abc" with
    "https://kkinstagram.com/p/abc" and [/rx] answers
    "https://reddit.com/r/x" with "https://rxddit.com/r/x", both as a public
    message; more generally, a URL in which the source domain comes after a
    prefix without the first letter of that domain (such as "https://") is
    answered with that prefix, the target domain, and the rest rewritten in
    the same way.  A URL in which the source domain does not occur as a
    substring is answered with the ephemeral validation message and is not
    rewritten. *)
Theorem link_rewriters (E : env) (url a b : list N) :
  replace_instagram E (lit "https://instagram.com/p/abc")
  = discord E (SendMessage (lit "https://kkinstagram.com/p/abc") false)
  /\ replace_reddit E (lit "https://reddit.com/r/x")
     = discord E (SendMessage (lit "https://rxddit.com/r/x") false)
  /\ (105 ∉ a ->
      replace_instagram E (a ++ lit "instagram.com" ++ b)
      = discord E
          (SendMessage
             (a ++ lit "kkinstagram.com"
              ++ replace (lit "instagram.com") (lit "kkinstagram.com") b)
             false))
  /\ (114 ∉ a ->
      replace_reddit E (a ++ lit "reddit.com" ++ b)
      = discord E
          (SendMessage
             (a ++ lit "rxddit.com"
              ++ replace (lit "reddit.com") (lit "rxddit.com") b)
             false))
  /\ ((forall a b, url <> a ++ lit "instagram.com" ++ b) ->
      replace_instagram E url = discord E (SendMessage msg_invalid_url true))
  /\ ((forall a b, url <> a ++ lit "reddit.com" ++ b) ->
      replace_reddit E url = discord E (SendMessage msg_invalid_url true)).
Proof.
  split; [|split; [|split; [|split; [|split]]]].
  - unfold replace_instagram.
    replace (contains _ _) with true by (by vm_compute).
    replace (replace _ _ _) with (lit "https://kkinstagram.com/p/abc")
      by (by vm_compute).
    done.
  - unfold replace_reddit.
    replace (contains _ _) with true by (by vm_compute).
    replace (replace _ _ _) with (lit "https://rxddit.com/r/x")
      by (by vm_compute).
    done.
  - intros Ha. unfold replace_instagram.
    rewrite (proj2 (contains_true_iff _ _)) by eauto.
    change (lit "instagram.com") with (105 :: lit "nstagram.com").
    by rewrite (replace_first _ _ _ _ _ Ha).
  - intros Ha. unfold replace_reddit.
    rewrite (proj2 (contains_true_iff _ _)) by eauto.
    change (lit "reddit.com") with (114 :: lit "eddit.com").
    by rewrite (replace_first _ _ _ _ _ Ha).
  - intros H. apply contains_false_iff in H.
    unfold replace_instagram. by rewrite H.
  - intros H. apply contains_false_iff in H.
    unfold replace_reddit. by rewrite H.
Qed.

(** ** The URL preview suppressor *)

Lemma span_all p body rest :
  Forall (fun c => p c = true) body ->
  span p (body ++ rest) = (body ++ (span p rest).1, (span p rest).2).
Proof.
  induction 1 as [|c body Hc _ IH]; simpl.
  - by destruct (span p rest).
  - rewrite Hc, IH. done.
Qed.

Lemma span_Forall p s : Forall (fun c => p c = true) (span p s).1.
Proof.
  induction s as [|c s IH]; simpl; [constructor|].
  destruct (p c) eqn:Hc; [|constructor].
  destruct (span p s) as [a b]; simpl in *. by constructor.
Qed.

Lemma span_stop p s :
  match (span p s).2 with
  | [] => True
  | c :: _ => p c = false
  end.
Proof.
  induction s as [|c s IH]; simpl; [done|].
  destruct (p c) eqn:Hc; [|done].
  by destruct (span p s) as [a b].
Qed.

Lemma span_end rest : url_end rest -> span url_body_char rest = ([], rest).
Proof. destruct rest as [|c rest]; simpl; [done|]. by intros ->. Qed.

Lemma truthy_nonempty (s : list N) : truthy s = true <-> s <> [].
Proof. by destruct s. Qed.

Lemma url_scheme_http r :
  url_scheme (lit "http://" ++ r) = Some (lit "http://", r).
Proof. reflexivity. Qed.

Lemma url_scheme_https r :
  url_scheme (lit "https://" ++ r) = Some (lit "https://", r).
Proof. reflexivity. Qed.

Lemma url_at_prefix u rest :
  is_url u -> exists u' rest', url_at (u ++ rest) = Some (u', rest').
Proof.
  intros (body & Hu & Hne & Hbody). unfold url_at.
  assert (exists scheme, url_scheme (u ++ rest) = Some (scheme, body ++ rest))
    as [scheme ->].
  { destruct Hu as [-> | ->]; rewrite <- (assoc_L (++)); eauto using
      url_scheme_http, url_scheme_https. }
  rewrite (span_all _ _ _ Hbody).
  destruct body as [|c body]; [done|]. simpl. eauto.
Qed.

Lemma url_at_exact u rest :
  is_url u -> url_end rest -> url_at (u ++ rest) = Some (u, rest).
Proof.
  intros (body & Hu & Hne & Hbody) Hend. unfold url_at.
  assert (exists scheme, u = scheme ++ body
          /\ url_scheme (u ++ rest) = Some (scheme, body ++ rest))
    as (scheme & -> & ->).
  { destruct Hu as [-> | ->]; eexists; (split; [reflexivity|]);
      rewrite <- (assoc_L (++)); eauto using url_scheme_http, url_scheme_https. }
  rewrite (span_all _ _ _ Hbody), (span_end _ Hend). simpl.
  rewrite (right_id_L [] (++)).
  destruct body as [|c body]; [done|]. done.
Qed.

Lemma url_at_is_url s u rest :
  url_at s = Some (u, rest) -> is_url u /\ url_end rest.
Proof.
  unfold url_at. intros H.
  destruct (url_scheme s) as [[scheme r]|] eqn:Es; [|discriminate].
  apply url_scheme_app in Es as [_ Hs].
  pose proof (span_Forall url_body_char r) as Hall.
  pose proof (span_stop url_body_char r) as Hstop.
  destruct (span url_body_char r) as [body rest']; simpl in *.
  destruct (truthy body) eqn:Hb; [|discriminate].
  injection H as <- <-. split; [|done].
  exists body. apply truthy_nonempty in Hb.
  split; [destruct Hs as [-> | ->]; auto | by split].
Qed.

Lemma re_sub_url_match s u rest :
  url_at s = Some (u, rest) -> re_sub_url s = wrap_url u ++ re_sub_url rest.
Proof.
  intros H. destruct s as [|c s]; [discriminate|].
  rewrite re_sub_url_equation_2.
  destruct (inspect (url_at (c :: s))) as [[[u' rest']|] Hy].
  - rewrite re_sub_url_clause_2_equation_1. congruence.
  - congruence.
Qed.

Lemma re_sub_url_skip c s :
  url_at (c :: s) = None -> re_sub_url (c :: s) = c :: re_sub_url s.
Proof.
  intros H. rewrite re_sub_url_equation_2.
  destruct (inspect (url_at (c :: s))) as [[[u' rest']|] Hy].
  - congruence.
  - by rewrite re_sub_url_clause_2_equation_2.
Qed.

Lemma suppress_is_re_sub text : suppress_url_previews text = re_sub_url text.
Proof.
  unfold suppress_url_previews. destruct text; [|done].
  by rewrite re_sub_url_equation_1.
Qed.

Lemma re_sub_url_truthy s : truthy (re_sub_url s) = truthy s.
Proof.
  destruct s as [|c s]; [by rewrite re_sub_url_equation_1|].
  destruct (url_at (c :: s)) as [[u rest]|] eqn:Hm.
  - by rewrite (re_sub_url_match _ _ _ Hm).
  - by rewrite (re_sub_url_skip _ _ Hm).
Qed.

(** C8.  [suppress_url_previews] is a function of its argument alone.  On a
    text in which no URL occurs it is the identity.  Where [u] is the first
    URL of the text, running up to a character that cannot continue it, the
    result copies what precedes [u], puts [u] between angle brackets, and
    goes on in the same way with what follows [u]. *)
Theorem suppress_url_previews_spec (text pre u post : list N) :
  ((forall a u' b, text = a ++ u' ++ b -> ~ is_url u') ->
   suppress_url_previews text = text)
  /\ (text = pre ++ u ++ post ->
      is_url u ->
      url_end post ->
      (forall a u' b,
         text = a ++ u' ++ b -> is_url u' -> (length pre <= length a)%nat) ->
      suppress_url_previews text
      = pre ++ lit "<" ++ u ++ lit ">" ++ suppress_url_previews post).
Proof.
  rewrite !suppress_is_re_sub. split.
  - induction text as [|c s IH]; intros Hfree.
    + by rewrite re_sub_url_equation_1.
    + rewrite re_sub_url_skip.
      * f_equal. apply IH. intros a u' b ->.
        by apply (Hfree (c :: a) u' b).
      * destruct (url_at (c :: s)) as [[u' rest]|] eqn:Hm; [|done].
        pose proof (url_at_app _ _ _ Hm) as Hs.
        apply url_at_is_url in Hm as [Hu' _].
        by destruct (Hfree [] u' rest).
  - intros -> Hu Hend. induction pre as [|c pre IH]; intros Hfirst.
    + cbn [app]. rewrite (re_sub_url_match _ _ _ (url_at_exact _ _ Hu Hend)).
      unfold wrap_url. by rewrite <- !(assoc_L (++)).
    + cbn [app]. rewrite re_sub_url_skip.
      * f_equal. apply IH. intros a u' b Hs Hu'.
        specialize (Hfirst (c :: a) u' b). cbn [app length] in Hfirst.
        rewrite Hs in Hfirst. specialize (Hfirst eq_refl Hu'). lia.
      * destruct (url_at (c :: pre ++ u ++ post)) as [[u' rest]|] eqn:Hm;
          [|done].
        pose proof (url_at_app _ _ _ Hm) as Hs.
        apply url_at_is_url in Hm as [Hu' _].
        specialize (Hfirst [] u' rest Hs Hu'). simpl in Hfirst. lia.
Qed.

(** ** Traces and computations *)

Lemma count_snoc p t ev :
  count p (t ++ [ev]) = (count p t + if p ev then 1 else 0)%nat.
Proof.
  unfold count. rewrite filter_app, length_app. f_equal.
  rewrite filter_cons, filter_nil. destruct (p ev); by case_decide.
Qed.

Lemma count_app p t1 t2 : count p (t1 ++ t2) = (count p t1 + count p t2)%nat.
Proof. unfold count. by rewrite filter_app, length_app. Qed.

(** Unfolding of the monad and of the calls to the outside. *)
Ltac unfold_calls :=
  unfold try_except, try_finally, discord, mkdtemp, rmtree,
    create_subprocess_exec, wait_for_communicate, glob, stat_size, open_rb,
    answer, fails, mbind, M_bind, bind, mret, M_ret, ret, raise, log.

(** One step of a run: the matches on results already known are reduced. *)
Ltac run := cbv beta iota zeta.

Ltac count_events :=
  repeat (rewrite count_snoc; cbn [is_discord is_glob is_stat is_rmtree
                                   is_upload]);
  rewrite ?Nat.add_0_r.

(** ** The video fetcher *)

Lemma success_dict_no_error p t th u uid desc date :
  success_dict p t th u uid desc date !! "error"%string = None.
Proof. unfold success_dict. by simplify_map_eq. Qed.

Lemma error_dict_error error_msg :
  error_dict error_msg !! "error"%string = Some error_msg.
Proof. unfold error_dict. by simplify_map_eq. Qed.

Lemma lit_app_nonempty (a b : list N) : truthy a = true -> a ++ b <> [].
Proof. by destruct a. Qed.

Lemma failure_intro (error_msg : list N) :
  error_msg <> [] -> is_failure (error_dict error_msg).
Proof. intros H. by exists error_msg. Qed.

Lemma msg_no_id_nonempty : msg_no_id <> [].
Proof. by vm_compute. Qed.

Lemma msg_timeout_nonempty : msg_timeout <> [].
Proof. by vm_compute. Qed.

Lemma msg_exit_nonempty rc err : msg_exit rc err <> [].
Proof. by apply lit_app_nonempty. Qed.

Lemma msg_parts_nonempty parts output : msg_parts parts output <> [].
Proof. by apply lit_app_nonempty. Qed.

Lemma msg_no_file_nonempty dir : msg_no_file dir <> [].
Proof. by apply lit_app_nonempty. Qed.

Lemma msg_exception_nonempty e : msg_exception e <> [].
Proof. by apply lit_app_nonempty. Qed.

Section Fetcher.
Context `{RT : Runtime} (E : env).

Lemma download_handler_total (e : exn) :
  exists m, download_handler e = Some (ret (error_dict m)) /\ m <> [].
Proof.
  unfold download_handler. destruct (kind e).
  - exists msg_timeout. split; [done | apply msg_timeout_nonempty].
  - exists (msg_exception e). split; [done | apply msg_exception_nonempty].
  - exists (msg_exception e). split; [done | apply msg_exception_nonempty].
Qed.

Lemma unpack7_cases (parts : list (list N)) (w : world) :
  (exists a b c d e f g,
     parts = [a; b; c; d; e; f; g]
     /\ unpack7 parts w = (Ret (a, b, c, d, e, f, g), w))
  \/ (exists err, length parts <> 7%nat /\ unpack7 parts w = (Raise err, w)).
Proof.
  destruct parts as [|a [|b [|c [|d [|e [|f [|g [|h parts]]]]]]]];
    try (right; eexists; split; [simpl; lia | reflexivity]).
  left. by exists a, b, c, d, e, f, g.
Qed.

(** C2.  [download_twitter_video] always returns, and never with an
    exception.  What it returns is either the dictionary with the single key
    "error" and a non-empty message, or the success record, which has no
    "error" key; and it is the success record only when nothing failed: an
    identifier was extracted, the downloader started, exited in time with
    status 0 and decodable output of exactly 7 fields, and a downloaded file
    was found and its size read. *)
Theorem download_never_raises (url output_dir : list N) (w : world) :
  exists d w',
    download_twitter_video E url output_dir w = (Ret d, w')
    /\ ((is_failure d /\ is_Some (d !! "error"%string))
        \/ (is_success d /\ d !! "error"%string = None
            /\ nothing_failed E url w)).
Proof.
  unfold download_twitter_video.
  destruct (extract_tweet_id url) as [[|c tweet_id]|] eqn:Hid.
  { exists (error_dict msg_no_id), w. split; [done|].
    left. split; [apply failure_intro, msg_no_id_nonempty|].
    by rewrite error_dict_error. }
  2:{ exists (error_dict msg_no_id), w. split; [done|].
      left. split; [apply failure_intro, msg_no_id_nonempty|].
      by rewrite error_dict_error. }
  unfold try_except.
  destruct (run_downloader E url output_dir (c :: tweet_id) w) as [[d|e] w']
    eqn:Hrun.
  - exists d, w'. split; [done|].
    revert Hrun. unfold run_downloader. unfold_calls.
    destruct (spawn_answer E) eqn:Hspawn; run; [discriminate|].
    destruct (wait_answer E) as [rc [e1|out] [e2|err] | |] eqn:Hwait; run;
      try discriminate.
    destruct (Z.eqb_spec rc 0) as [->|Hrc]; cbn [negb]; run.
    2:{ intros [= <- <-]. left. rewrite error_dict_error.
        split; [apply failure_intro, msg_exit_nonempty | done]. }
    destruct (Nat.ltb _ 7); run.
    { intros [= <- <-]. left. rewrite error_dict_error.
      split; [apply failure_intro, msg_parts_nonempty | done]. }
    match goal with
    | |- context [unpack7 ?parts ?w0] =>
        destruct (unpack7_cases parts w0)
          as [(f0 & f1 & f2 & f3 & f4 & f5 & f6 & Hparts & ->)
             | (err' & _ & ->)]
    end; run; [|discriminate].
    cbn [w_trace]. count_events.
    destruct (glob_answer E _) as [e3|[|video_path files]] eqn:Hglob; run;
      [discriminate| |].
    + match goal with
      | |- context [glob_answer E ?k] => destruct (glob_answer E k)
      end; run; [discriminate|].
      intros [= <- <-]. left. rewrite error_dict_error.
      split; [apply failure_intro, msg_no_file_nonempty | done].
    + cbn [w_trace]. count_events.
      destruct (stat_answer E _) as [e4|size] eqn:Hstat; run; [discriminate|].
      intros [= <- <-]. right. rewrite success_dict_no_error.
      split; [unfold is_success; eauto 10|]. split; [done|].
      exists (c :: tweet_id), out, err, video_path, files, size.
      rewrite Hparts. done.
  - destruct (download_handler_total e) as (m & -> & Hm).
    exists (error_dict m), w'. split; [done|].
    left. rewrite error_dict_error. split; [by apply failure_intro | done].
Qed.

(** The downloader was started, exited with status 0 in time, and its
    output decodes: the run up to the parsing of [output]. *)
Lemma run_downloader_exit0 (url output_dir tweet_id out err : list N)
    (w : world) :
  spawn_answer E = None ->
  wait_answer E = Completed 0 (inr out) (inr err) ->
  let w1 :=
    World (w_dirs w)
      (alter (exit_child 0) (length (w_children w))
         (w_children w ++ [Running (cmd_args url output_dir tweet_id)]))
      ((w_trace w ++ [ESpawn (cmd_args url output_dir tweet_id)])
       ++ [ECommunicate (length (w_children w))]) in
  let output := strip out in
  let parts := split sep output in
  run_downloader E url output_dir tweet_id w
  = if (length parts <? 7)%nat then
      (Ret (error_dict (msg_parts parts output)), w1)
    else
      ('(video_url, title, thumbnail, uploader, uploader_id, description,
         upload_date) ← unpack7 parts;
       video_files ← glob E output_dir (tweet_id ++ lit ".*");
       match video_files with
       | [] =>
         all_files ← glob E output_dir (lit "*");
         ret (error_dict (msg_no_file output_dir))
       | video_path :: _ =>
         file_size ← stat_size E video_path;
         ret (success_dict video_path title thumbnail uploader uploader_id
                description upload_date)
       end) w1.
Proof.
  intros Hspawn Hwait. unfold run_downloader. unfold_calls.
  rewrite Hspawn. run. rewrite Hwait. run.
  change (negb (0 =? 0)%Z) with false. run.
  by destruct (Nat.ltb _ 7).
Qed.

(** C4.  When the downloader has exited with status 0 and its output splits
    into exactly 7 fields, the unpacking does not raise, and with a
    downloaded file in place the fetcher returns the record in which
    "title", "thumbnail", "uploader", "uploader_id", "description" and
    "upload_date" hold fields 2 to 7, trimmed, and "error" is absent.  When
    the output splits into fewer than 7 fields the fetcher returns the error
    dictionary with the message about the unexpected output. *)
Theorem metadata_parsing (url output_dir out err : list N) (c : N)
    (tweet_id : list N) (w : world) :
  extract_tweet_id url = Some (c :: tweet_id) ->
  spawn_answer E = None ->
  wait_answer E = Completed 0 (inr out) (inr err) ->
  let parts := split sep (strip out) in
  (length parts = 7%nat ->
   exists video_url title thumbnail uploader uploader_id description
          upload_date,
     parts = [video_url; title; thumbnail; uploader; uploader_id;
              description; upload_date]
     /\ (forall w0,
           unpack7 parts w0
           = (Ret (video_url, title, thumbnail, uploader, uploader_id,
                   description, upload_date), w0))
     /\ forall video_path files size,
          glob_answer E (count is_glob (w_trace w))
          = inr (video_path :: files) ->
          stat_answer E (count is_stat (w_trace w)) = inr size ->
          exists d,
            (download_twitter_video E url output_dir w).1 = Ret d
            /\ d !! "file_path"%string = Some video_path
            /\ d !! "title"%string = Some (strip title)
            /\ d !! "thumbnail"%string = Some (strip thumbnail)
            /\ d !! "uploader"%string = Some (strip uploader)
            /\ d !! "uploader_id"%string = Some (strip uploader_id)
            /\ d !! "description"%string = Some (strip description)
            /\ d !! "upload_date"%string = Some (strip upload_date)
            /\ d !! "error"%string = None)
  /\ ((length parts < 7)%nat ->
      (download_twitter_video E url output_dir w).1
      = Ret (error_dict (msg_parts parts (strip out)))).
Proof.
  intros Hid Hspawn Hwait parts.
  unfold download_twitter_video. rewrite Hid. unfold try_except.
  rewrite (run_downloader_exit0 _ _ _ _ _ _ Hspawn Hwait).
  fold parts. split.
  - intros Hlen.
    destruct parts as [|f0 [|f1 [|f2 [|f3 [|f4 [|f5 [|f6 [|f7 parts]]]]]]]];
      try discriminate Hlen.
    exists f0, f1, f2, f3, f4, f5, f6. split; [done|]. split; [done|].
    intros video_path files size Hglob Hstat.
    change (length [f0; f1; f2; f3; f4; f5; f6] <? 7)%nat with false.
    cbn [unpack7]. unfold_calls. run. cbn [w_trace]. count_events.
    rewrite Hglob. run. cbn [w_trace]. count_events. rewrite Hstat. run.
    eexists. split; [reflexivity|].
    unfold success_dict. by simplify_map_eq.
  - intros Hlen. apply Nat.ltb_lt in Hlen. by rewrite Hlen.
Qed.

(** C10.  When the downloader has exited with status 0 and its output splits
    into more than 7 fields, the unpacking into 7 names raises a
    [ValueError], and the fetcher returns the error dictionary made from
    that exception: a failure, not a record. *)
Theorem too_many_fields_is_failure (url output_dir out err : list N) (c : N)
    (tweet_id : list N) (w : world) :
  extract_tweet_id url = Some (c :: tweet_id) ->
  spawn_answer E = None ->
  wait_answer E = Completed 0 (inr out) (inr err) ->
  let parts := split sep (strip out) in
  (7 < length parts)%nat ->
  (forall w0,
     unpack7 parts w0
     = (Raise (ValueError (too_many_values (length parts))), w0))
  /\ (download_twitter_video E url output_dir w).1
     = Ret (error_dict
              (msg_exception (ValueError (too_many_values (length parts)))))
  /\ is_failure (error_dict
       (msg_exception (ValueError (too_many_values (length parts))))).
Proof.
  intros Hid Hspawn Hwait parts Hlen.
  assert (forall w0,
            unpack7 parts w0
            = (Raise (ValueError (too_many_values (length parts))), w0))
    as Hunpack.
  { intros w0.
    destruct parts as [|f0 [|f1 [|f2 [|f3 [|f4 [|f5 [|f6 [|f7 parts]]]]]]]];
      simpl in Hlen; try lia. reflexivity. }
  split; [done|]. split.
  - unfold download_twitter_video. rewrite Hid. unfold try_except.
    rewrite (run_downloader_exit0 _ _ _ _ _ _ Hspawn Hwait).
    fold parts.
    replace (length parts <? 7)%nat with false
      by (symmetry; apply Nat.ltb_ge; lia).
    unfold mbind, M_bind, bind. rewrite Hunpack. reflexivity.
  - apply failure_intro, msg_exception_nonempty.
Qed.

(** C5, as the code has it.  When the downloader does not exit within the
    60 seconds, the fetcher returns the error dictionary with the timeout
    message.  Nothing is sent to the child: after the call it is still in
    the process table as running, and the trace of the call holds the
    start of the child and the wait for it, and nothing else. *)
Theorem timeout_is_failure_child_abandoned (url output_dir : list N) (c : N)
    (tweet_id : list N) (w : world) :
  extract_tweet_id url = Some (c :: tweet_id) ->
  spawn_answer E = None ->
  wait_answer E = TimedOut ->
  let argv := cmd_args url output_dir (c :: tweet_id) in
  download_twitter_video E url output_dir w
  = (Ret (error_dict msg_timeout),
     World (w_dirs w)
           (w_children w ++ [Running argv])
           (w_trace w ++ [ESpawn argv; ECommunicate (length (w_children w))])).
Proof.
  intros Hid Hspawn Hwait argv.
  unfold download_twitter_video. rewrite Hid.
  unfold run_downloader. unfold_calls. rewrite Hspawn. run.
  rewrite Hwait. run. cbn [download_handler kind w_dirs w_children w_trace].
  by rewrite <- (assoc_L (++)).
Qed.

End Fetcher.

(** ** The relay *)

Lemma same_dirs_refl w : same_dirs w w.
Proof. by split. Qed.

Lemma same_dirs_trans w1 w2 w3 :
  same_dirs w1 w2 -> same_dirs w2 w3 -> same_dirs w1 w3.
Proof. intros [? ?] [? ?]. split; congruence. Qed.

Lemma same_dirs_log ev w :
  is_rmtree ev = false -> same_dirs w (log ev w).
Proof.
  intros Hev. split; [done|]. unfold log. cbn [w_trace].
  rewrite count_snoc, Hev. lia.
Qed.

Lemma quiet_ret {A} (a : A) : quiet (ret a).
Proof. intros w r w' [= <- <-]. apply same_dirs_refl. Qed.

Lemma quiet_raise {A} (e : exn) : quiet (@raise A e).
Proof. intros w r w' [= <- <-]. apply same_dirs_refl. Qed.

Lemma quiet_bind {A B} (m : M A) (k : A -> M B) :
  quiet m -> (forall a, quiet (k a)) -> quiet (m ≫= k).
Proof.
  intros Hm Hk w r w'. unfold mbind, M_bind, bind.
  destruct (m w) as [[a|e] w1] eqn:Hmw.
  - intros Hka. eapply same_dirs_trans; [by eapply Hm | by eapply Hk].
  - intros [= <- <-]. by eapply Hm.
Qed.

Lemma quiet_try_except {A} (body : M A) (handler : exn -> option (M A)) :
  quiet body ->
  (forall e h, handler e = Some h -> quiet h) ->
  quiet (try_except body handler).
Proof.
  intros Hbody Hh w r w'. unfold try_except.
  destruct (body w) as [[a|e] w1] eqn:Hbw.
  - intros [= <- <-]. by eapply Hbody.
  - destruct (handler e) as [h|] eqn:Hhe.
    + intros Hrun. eapply same_dirs_trans; [by eapply Hbody | by eapply Hh].
    + intros [= <- <-]. by eapply Hbody.
Qed.

Lemma quiet_answer {A} (a : exn + A) : quiet (answer a).
Proof. destruct a; [apply quiet_raise | apply quiet_ret]. Qed.

Lemma quiet_fails (a : option exn) : quiet (fails a).
Proof. destruct a; [apply quiet_raise | apply quiet_ret]. Qed.

Create HintDb quiet.

Section Relay.
Context `{RT : Runtime} (E : env).

Lemma quiet_discord r : quiet (discord E r).
Proof.
  intros w r0 w' Hrun. unfold discord in Hrun.
  eapply same_dirs_trans;
    [by apply (same_dirs_log (EDiscord r)) | by eapply quiet_fails].
Qed.

Lemma quiet_glob dir pattern : quiet (glob E dir pattern).
Proof.
  intros w r0 w' Hrun. unfold glob in Hrun.
  eapply same_dirs_trans;
    [by apply (same_dirs_log (EGlob dir pattern)) | by eapply quiet_answer].
Qed.

Lemma quiet_stat_size path : quiet (stat_size E path).
Proof.
  intros w r0 w' Hrun. unfold stat_size in Hrun.
  eapply same_dirs_trans;
    [by apply (same_dirs_log (EStat path)) | by eapply quiet_answer].
Qed.

Lemma quiet_open_rb path : quiet (open_rb E path).
Proof.
  intros w r0 w' Hrun. unfold open_rb in Hrun.
  eapply same_dirs_trans;
    [by apply (same_dirs_log (EOpen path)) | by eapply quiet_fails].
Qed.

Lemma quiet_create_subprocess_exec argv : quiet (create_subprocess_exec E argv).
Proof.
  intros w r w'. unfold create_subprocess_exec.
  destruct (spawn_answer E); intros [= <- <-].
  - by apply same_dirs_log.
  - split; [done|]. cbn [w_trace]. rewrite count_snoc. simpl. lia.
Qed.

Lemma quiet_wait_for_communicate pid : quiet (wait_for_communicate E pid).
Proof.
  intros w r w'. unfold wait_for_communicate.
  destruct (wait_answer E); intros [= <- <-];
    first [ by apply same_dirs_log
          | split; [done|]; cbn [w_trace]; rewrite count_snoc; simpl; lia ].
Qed.

Lemma quiet_unpack7 parts : quiet (unpack7 parts).
Proof.
  unfold unpack7.
  destruct parts as [|f0 [|f1 [|f2 [|f3 [|f4 [|f5 [|f6 [|f7 parts]]]]]]]];
    try destruct (Nat.ltb _ 7); first [apply quiet_ret | apply quiet_raise].
Qed.

Lemma quiet_dict_index d key : quiet (dict_index d key).
Proof.
  unfold dict_index. destruct (d !! key); [apply quiet_ret | apply quiet_raise].
Qed.

#[local] Hint Resolve quiet_ret quiet_raise quiet_answer quiet_discord
  quiet_glob quiet_stat_size quiet_open_rb quiet_create_subprocess_exec
  quiet_wait_for_communicate quiet_unpack7 quiet_dict_index : quiet.

Lemma quiet_run_downloader url output_dir tweet_id :
  quiet (run_downloader E url output_dir tweet_id).
Proof.
  unfold run_downloader.
  apply quiet_bind; [auto with quiet|]. intros process.
  apply quiet_bind; [auto with quiet|]. intros [[rc stdout] stderr].
  apply quiet_bind; [auto with quiet|]. intros out.
  apply quiet_bind; [auto with quiet|]. intros err.
  destruct (negb _); [auto with quiet|].
  destruct (Nat.ltb _ 7); [auto with quiet|].
  apply quiet_bind; [auto with quiet|]. intros [[[[[[f0 f1] f2] f3] f4] f5] f6].
  apply quiet_bind; [auto with quiet|]. intros [|video_path files].
  - apply quiet_bind; auto with quiet.
  - apply quiet_bind; auto with quiet.
Qed.

Lemma quiet_download_twitter_video url output_dir :
  quiet (download_twitter_video E url output_dir).
Proof.
  unfold download_twitter_video.
  destruct (extract_tweet_id url) as [[|c tweet_id]|]; auto with quiet.
  apply quiet_try_except; [apply quiet_run_downloader|].
  intros e h. unfold download_handler.
  destruct (kind e); intros [= <-]; auto with quiet.
Qed.

Lemma quiet_upload_video e video_path : quiet (upload_video E e video_path).
Proof.
  unfold upload_video. apply quiet_try_except.
  - apply quiet_bind; auto with quiet.
  - intros err h. destruct (kind err); intros [= <-]; auto with quiet.
Qed.

Lemma quiet_relay_video video_data : quiet (relay_video E video_data).
Proof.
  unfold relay_video.
  apply quiet_bind; [auto with quiet|]. intros video_path.
  apply quiet_bind; [auto with quiet|]. intros file_size.
  destruct (_ >? _)%Z; [auto with quiet | apply quiet_upload_video].
Qed.

Lemma quiet_fetch_and_relay url temp_dir :
  quiet (fetch_and_relay E url temp_dir).
Proof.
  unfold fetch_and_relay.
  apply quiet_bind; [apply quiet_download_twitter_video|]. intros video_data.
  destruct (video_data !! _); [auto with quiet | apply quiet_relay_video].
Qed.

Lemma quiet_report_unexpected e : quiet (report_unexpected E e).
Proof.
  unfold report_unexpected. apply quiet_try_except; [auto with quiet|].
  intros e' h [= <-]. auto with quiet.
Qed.

Lemma safe_report_unexpected e : safe (report_unexpected E e).
Proof.
  intros w. unfold report_unexpected, try_except.
  destruct (discord E _ w) as [[[]|e'] w1]; eauto.
Qed.

(** The body of the outer [try] with its [except Exception]: it returns, and
    leaves the directories as they were. *)
Lemma guarded_body url temp_dir w :
  exists w',
    try_except (fetch_and_relay E url temp_dir)
               (fun e => Some (report_unexpected E e)) w = (Ret tt, w')
    /\ same_dirs w w'.
Proof.
  unfold try_except.
  destruct (fetch_and_relay E url temp_dir w) as [[[]|e] w1] eqn:Hbody.
  - exists w1. split; [done|]. by eapply quiet_fetch_and_relay.
  - destruct (safe_report_unexpected e w1) as [w2 Hrep].
    exists w2. split; [done|].
    eapply same_dirs_trans;
      [by eapply quiet_fetch_and_relay | by eapply quiet_report_unexpected].
Qed.

(** C1, as the code has it.  An invocation of [/vx] that has created its
    temporary directory [d] ends without raising, and the last thing it does
    is its only call of [shutil.rmtree], on [d], however the fetch, the size
    check and the upload went.  When that call succeeds the directories are
    those that existed before the invocation; when it raises, the exception
    is swallowed and [d] is still there. *)
Theorem temp_dir_cleanup (url d : list N) (w : world) :
  contains (lit "twitter.com") url || contains (lit "x.com") url = true ->
  discord_answer E (count is_discord (w_trace w)) = None ->
  mkdtemp_answer E = inr d ->
  d ∉ w_dirs w ->
  exists w' t,
    replace_twitter E url w = (Ret tt, w')
    /\ w_trace w' = t ++ [ERmtree d]
    /\ count is_rmtree t = count is_rmtree (w_trace w)
    /\ w_dirs w' = match rmtree_answer E with
                   | None => w_dirs w
                   | Some _ => {[ d ]} ∪ w_dirs w
                   end.
Proof.
  intros Hvalid Hdefer Hmk Hfresh.
  unfold replace_twitter. rewrite Hvalid. cbn [negb].
  unfold mbind, M_bind, bind, discord at 1. rewrite Hdefer. cbn [fails].
  unfold ret at 1. unfold mkdtemp. rewrite Hmk.
  cbn [log w_dirs w_children w_trace].
  destruct (decide (d ∈ w_dirs w)) as [|_]; [done|].
  unfold try_finally.
  match goal with
  | |- context [try_except (fetch_and_relay E url d) ?h ?w2] =>
      destruct (guarded_body url d w2) as (w3 & -> & Hdirs & Hcount)
  end.
  cbn [w_dirs w_trace] in Hdirs, Hcount.
  rewrite !count_snoc in Hcount. cbn [is_rmtree] in Hcount.
  unfold cleanup, try_except, rmtree.
  destruct (rmtree_answer E) as [e|].
  - eexists _, (w_trace w3). split; [reflexivity|].
    cbn [log w_dirs w_trace]. split; [done|]. split; [lia | done].
  - eexists _, (w_trace w3). split; [reflexivity|].
    cbn [w_dirs w_trace]. split; [done|]. split; [lia|].
    rewrite Hdirs, difference_union_distr_l_L, difference_diag_L.
    rewrite (left_id_L ∅ (∪)). by apply difference_disjoint_L, disjoint_singleton_r.
Qed.

(** C3.  [max_size] is 50 MiB, and the size check is a strict comparison
    with it.  A file of at most [max_size] bytes, so one of exactly
    [max_size] bytes, goes on to the upload, and where the file opens and
    Discord accepts the request the upload is what the run does.  A file of
    more than [max_size] bytes, so one of [max_size + 1] bytes, gets the
    ephemeral oversize message as the only request, and no upload. *)
Theorem size_limit_is_strict (video_data : gmap string (list N))
    (video_path : list N) (file_size : Z) (w : world) :
  video_data !! "file_path"%string = Some video_path ->
  stat_answer E (count is_stat (w_trace w)) = inr file_size ->
  let w1 := log (EStat video_path) w in
  let e := summary_embed video_data file_size in
  max_size = 52428800%Z
  /\ ((file_size <= max_size)%Z ->
      relay_video E video_data w = upload_video E e video_path w1
      /\ (open_answer E = None ->
          discord_answer E (count is_discord (w_trace w)) = None ->
          relay_video E video_data w
          = (Ret tt,
             World (w_dirs w) (w_children w)
               (w_trace w
                ++ [EStat video_path; EOpen video_path;
                    EDiscord (FollowupFile e video_path
                                (path_name video_path))]))))
  /\ ((file_size > max_size)%Z ->
      relay_video E video_data w
      = discord E (FollowupSend (msg_oversize file_size) true) w1
      /\ w_trace (relay_video E video_data w).2
         = w_trace w
           ++ [EStat video_path;
               EDiscord (FollowupSend (msg_oversize file_size) true)]
      /\ count is_upload (w_trace (relay_video E video_data w).2)
         = count is_upload (w_trace w)).
Proof.
  intros Hpath Hstat w1 e.
  assert (relay_video E video_data w
          = (if (file_size >? max_size)%Z
             then discord E (FollowupSend (msg_oversize file_size) true)
             else upload_video E e video_path) w1) as Hrun.
  { unfold relay_video, dict_index. rewrite Hpath.
    unfold mbind, M_bind, bind, ret, stat_size. by rewrite Hstat. }
  split; [done|]. split.
  - intros Hle. rewrite Hrun.
    replace (file_size >? max_size)%Z with false by lia.
    split; [done|]. intros Hopen Hsend.
    unfold upload_video, try_except, mbind, M_bind, bind, open_rb, discord.
    rewrite Hopen. cbn [fails]. unfold ret at 1.
    subst w1. cbn [log w_trace]. count_events. rewrite Hsend. cbn [fails].
    unfold ret, log. cbn [w_dirs w_children w_trace].
    by rewrite <- !(assoc_L (++)).
  - intros Hgt. rewrite Hrun.
    replace (file_size >? max_size)%Z with true by lia.
    split; [done|].
    assert (w_trace (discord E (FollowupSend (msg_oversize file_size) true)
                       w1).2
            = w_trace w
              ++ [EStat video_path;
                  EDiscord (FollowupSend (msg_oversize file_size) true)])
      as Htrace.
    { unfold discord. subst w1.
      destruct (discord_answer E _); cbn [fails]; unfold raise, ret, log;
        cbn [snd w_trace]; by rewrite <- !(assoc_L (++)). }
    split; [done|]. rewrite Htrace.
    rewrite count_app.
    change (count is_upload [_; _]) with 0%nat. lia.
Qed.

(** C6, as the code has it.  The author name of the summary is the trimmed
    display name of the uploader, or "Desconocido" when that is empty,
    whatever the handle is.  The summary always names an author: with a
    handle the name is followed by the handle in parentheses and the avatar
    is looked up by the handle; without one the name stands alone. *)
Theorem author_fallback (video_data : gmap string (list N)) (file_size : Z) :
  let uploader := strip (dict_get video_data "uploader") in
  let handle := strip (dict_get video_data "uploader_id") in
  let name := if truthy uploader then uploader else lit "Desconocido" in
  author_name video_data = name
  /\ embed_author (summary_embed video_data file_size)
     = Some (if truthy handle
             then (name ++ lit " (@" ++ handle ++ lit ")",
                   Some (lit "https://unavatar.io/x/" ++ handle))
             else (name, None)).
Proof.
  intros uploader handle name. split; [done|].
  unfold summary_embed. cbn [embed_author].
  unfold display_handle, author_handle, author_name, str_or.
  fold uploader handle name.
  assert (truthy name = true) as ->.
  { subst name. by destruct (truthy uploader) eqn:Hu. }
  by destruct (truthy handle).
Qed.

(** C7, as the code has it.  The description is trimmed, cut to its first
    280 characters, and passed once through [suppress_url_previews]; the
    summary shows that text when the trimmed description is not empty, and
    "Video de X" when it is. *)
Theorem description_shown (video_data : gmap string (list N)) (file_size : Z) :
  let fetched := strip (dict_get video_data "description") in
  let cut := take 280 fetched in
  (length cut <= 280)%nat
  /\ format_description video_data = suppress_url_previews cut
  /\ embed_description (summary_embed video_data file_size)
     = if truthy fetched then suppress_url_previews cut
       else lit "Video de X".
Proof.
  intros fetched cut.
  assert (format_description video_data = suppress_url_previews cut) as Hfmt.
  { unfold format_description. fold fetched.
    destruct (truthy fetched) eqn:Ht.
    - cbn [andb]. destruct (Nat.ltb_spec 280 (length fetched)) as [Hlt|Hge].
      + fold cut. destruct cut eqn:Hcut; [|done].
        subst cut. destruct fetched; [done | discriminate].
      + subst cut. rewrite take_ge by lia. by rewrite Ht.
    - cbn [andb]. rewrite Ht. subst cut.
      destruct fetched; [|discriminate]. done. }
  split; [subst cut; rewrite length_take; lia|]. split; [done|].
  unfold summary_embed. cbn [embed_description]. rewrite Hfmt.
  unfold str_or. rewrite suppress_is_re_sub, re_sub_url_truthy.
  replace (truthy cut) with (truthy fetched); [done|].
  subst cut. by destruct fetched.
Qed.

End Relay.

(** * Worked runs *)

Lemma url_free_prefix_sound n s :
  url_free_prefix n s = true ->
  forall a u b, s = a ++ u ++ b -> is_url u -> (n <= length a)%nat.
Proof.
  revert s. induction n as [|n IH]; intros s Hfree a u b Hs Hu; [lia|].
  simpl in Hfree.
  destruct (url_at s) as [m|] eqn:Hm; [discriminate|].
  destruct a as [|c a].
  - subst s. destruct (url_at_prefix u b Hu) as (u' & rest' & Hm').
    cbn [app] in Hm. congruence.
  - subst s. cbn [app] in Hfree. specialize (IH _ Hfree a u b eq_refl Hu).
    simpl. lia.
Qed.

Lemma url_free_sound s :
  url_free_prefix (S (length s)) s = true ->
  forall a u b, s = a ++ u ++ b -> ~ is_url u.
Proof.
  intros Hfree a u b Hs Hu.
  pose proof (url_free_prefix_sound _ _ Hfree a u b Hs Hu) as Hlen.
  subst s. rewrite length_app in Hlen. lia.
Qed.

Lemma link_rewriters_witness :
  (forall a b, lit "https://example.com/p/abc" <> a ++ lit "instagram.com" ++ b)
  /\ replace_instagram env_ok (lit "https://example.com/p/abc")
     = discord env_ok (SendMessage msg_invalid_url true)
  /\ replace_reddit env_ok (lit "https://example.com/p/abc")
     = discord env_ok (SendMessage msg_invalid_url true)
  /\ replace_instagram env_ok
       (lit "https://www." ++ lit "instagram.com" ++ lit "/reel/xyz")
     = discord env_ok
         (SendMessage (lit "https://www.kkinstagram.com/reel/xyz") false)
  /\ replace_reddit env_ok
       (lit "https://old." ++ lit "reddit.com" ++ lit "/r/x")
     = discord env_ok (SendMessage (lit "https://old.rxddit.com/r/x") false).
Proof.
  assert (forall a b,
            lit "https://example.com/p/abc" <> a ++ lit "instagram.com" ++ b)
    as Hig by (apply contains_false_iff; vm_compute; reflexivity).
  assert (forall a b,
            lit "https://example.com/p/abc" <> a ++ lit "reddit.com" ++ b)
    as Hrx by (apply contains_false_iff; vm_compute; reflexivity).
  assert (105 ∉ lit "https://www.") as Hi
    by (apply (bool_decide_unpack _); vm_compute; exact I).
  assert (114 ∉ lit "https://old.") as Hr
    by (apply (bool_decide_unpack _); vm_compute; exact I).
  split; [exact Hig|]. split; [|split; [|split]].
  - exact (proj1 (proj2 (proj2 (proj2 (proj2
             (link_rewriters env_ok (lit "https://example.com/p/abc") [] [])))))
             Hig).
  - exact (proj2 (proj2 (proj2 (proj2 (proj2
             (link_rewriters env_ok (lit "https://example.com/p/abc") [] [])))))
             Hrx).
  - rewrite (proj1 (proj2 (proj2
               (link_rewriters env_ok [] (lit "https://www.")
                  (lit "/reel/xyz")))) Hi).
    reflexivity.
  - rewrite (proj1 (proj2 (proj2 (proj2
               (link_rewriters env_ok [] (lit "https://old.")
                  (lit "/r/x"))))) Hr).
    reflexivity.
Defined.

Lemma suppress_url_previews_spec_witness :
  suppress_url_previews (lit "sin enlaces") = lit "sin enlaces"
  /\ suppress_url_previews (lit "ver " ++ lit "https://t.co/a" ++ lit " b")
     = lit "ver " ++ lit "<" ++ lit "https://t.co/a" ++ lit ">"
       ++ suppress_url_previews (lit " b").
Proof.
  split.
  - apply (suppress_url_previews_spec (lit "sin enlaces") [] [] []).
    apply url_free_sound. vm_compute. reflexivity.
  - apply (suppress_url_previews_spec
             (lit "ver " ++ lit "https://t.co/a" ++ lit " b")
             (lit "ver ") (lit "https://t.co/a") (lit " b")).
    + reflexivity.
    + exists (lit "t.co/a"). split; [right; reflexivity|].
      split; [discriminate|]. vm_compute. repeat constructor.
    + reflexivity.
    + apply (url_free_prefix_sound 4). vm_compute. reflexivity.
Defined.

Lemma metadata_parsing_witness :
  extract_tweet_id url0 = Some (lit "123")
  /\ length (split sep (strip stdout7)) = 7%nat
  /\ (exists d,
        (download_twitter_video env_ok url0 tmp0 world0).1 = Ret d
        /\ d !! "file_path"%string = Some video0
        /\ d !! "title"%string = Some (lit "Un video")
        /\ d !! "thumbnail"%string = Some (lit "https://pbs.twimg.com/t.jpg")
        /\ d !! "uploader"%string = Some (lit "Ana")
        /\ d !! "uploader_id"%string = Some (lit "ana")
        /\ d !! "description"%string = Some (lit "hola https://t.co/x fin")
        /\ d !! "upload_date"%string = Some (lit "20240101")
        /\ d !! "error"%string = None)
  /\ (length (split sep (strip stdout6)) < 7)%nat
  /\ (download_twitter_video env_short url0 tmp0 world0).1
     = Ret (error_dict (msg_parts (split sep (strip stdout6)) (strip stdout6))).
Proof.
  split; [reflexivity|]. split; [reflexivity|]. split; [|split].
  - destruct (metadata_parsing env_ok url0 tmp0 stdout7 [] 49 [50; 51] world0
                eq_refl eq_refl eq_refl) as [H7 _].
    destruct (H7 eq_refl)
      as (f0 & f1 & f2 & f3 & f4 & f5 & f6 & Hparts & _ & Hfile).
    destruct (Hfile video0 [] 3000000%Z eq_refl eq_refl) as (d & Hd).
    vm_compute in Hparts. injection Hparts as <- <- <- <- <- <- <-.
    exists d. exact Hd.
  - vm_compute. lia.
  - destruct (metadata_parsing env_short url0 tmp0 stdout6 [] 49 [50; 51]
                world0 eq_refl eq_refl eq_refl) as [_ H6].
    apply H6. vm_compute. lia.
Defined.

Lemma too_many_fields_is_failure_witness :
  (7 < length (split sep (strip stdout8)))%nat
  /\ (download_twitter_video env_long url0 tmp0 world0).1
     = Ret (error_dict
              (msg_exception
                 (ValueError (lit "too many values to unpack (expected 7)")))).
Proof.
  assert (7 < length (split sep (strip stdout8)))%nat as Hlen
    by (vm_compute; lia).
  split; [exact Hlen|].
  destruct (too_many_fields_is_failure env_long url0 tmp0 stdout8 []
              49 [50; 51] world0 eq_refl eq_refl eq_refl Hlen)
    as (_ & Hfetch & _).
  rewrite Hfetch. vm_compute. reflexivity.
Defined.

Lemma timeout_is_failure_child_abandoned_witness :
  wait_answer env_timeout = TimedOut
  /\ download_twitter_video env_timeout url0 tmp0 world0
     = (Ret (error_dict msg_timeout),
        World ∅ [Running (cmd_args url0 tmp0 (lit "123"))]
              [ESpawn (cmd_args url0 tmp0 (lit "123")); ECommunicate 0]).
Proof.
  split; [reflexivity|].
  exact (timeout_is_failure_child_abandoned env_timeout url0 tmp0 49 [50; 51]
           world0 eq_refl eq_refl eq_refl).
Defined.

(** C5, as stated, fails: after a timeout the child is still running. *)
Lemma timeout_leaves_child_running :
  (download_twitter_video env_timeout url0 tmp0 world0).1
  = Ret (error_dict msg_timeout)
  /\ w_children (download_twitter_video env_timeout url0 tmp0 world0).2
     = [Running (cmd_args url0 tmp0 (lit "123"))].
Proof. split; vm_compute; reflexivity. Qed.

Lemma temp_dir_cleanup_witness :
  (tmp0 ∉ w_dirs world0)
  /\ exists w' t,
       replace_twitter env_ok url0 world0 = (Ret tt, w')
       /\ w_trace w' = t ++ [ERmtree tmp0]
       /\ count is_rmtree t = count is_rmtree (w_trace world0)
       /\ w_dirs w' = w_dirs world0.
Proof.
  assert (tmp0 ∉ w_dirs world0) as Hfresh by apply not_elem_of_empty.
  split; [exact Hfresh|].
  exact (temp_dir_cleanup env_ok url0 tmp0 world0 eq_refl eq_refl eq_refl
           Hfresh).
Defined.

(** C1, as stated, fails: when [shutil.rmtree] raises, the invocation ends
    normally and the directory it created is still there. *)
Lemma temp_dir_left_when_rmtree_fails :
  w_dirs world0 = ∅
  /\ (replace_twitter env_rmtree_fails url0 world0).1 = Ret tt
  /\ (tmp0 ∈ w_dirs (replace_twitter env_rmtree_fails url0 world0).2).
Proof.
  split; [reflexivity|]. split; [vm_compute; reflexivity|].
  apply (bool_decide_unpack _). vm_compute. exact I.
Qed.

Lemma size_limit_is_strict_witness :
  relay_video env_ceiling record_ok world0
  = (Ret tt,
     World ∅ []
       [EStat video0; EOpen video0;
        EDiscord (FollowupFile (summary_embed record_ok 52428800) video0
                    (lit "123.mp4"))])
  /\ w_trace (relay_video env_over record_ok world0).2
     = [EStat video0;
        EDiscord (FollowupSend (msg_oversize 52428801) true)].
Proof.
  split.
  - destruct (size_limit_is_strict env_ceiling record_ok video0 52428800 world0
                eq_refl eq_refl) as (_ & Hpass & _).
    destruct Hpass as [_ Hup]; [unfold max_size; lia|].
    exact (Hup eq_refl eq_refl).
  - destruct (size_limit_is_strict env_over record_ok video0 52428801 world0
                eq_refl eq_refl) as (_ & _ & Hfail).
    destruct Hfail as (_ & Htrace & _); [unfold max_size; lia|].
    exact Htrace.
Defined.

(** C6, as stated, fails: with a handle and no display name the author name
    is the placeholder. *)
Lemma placeholder_name_with_handle :
  (download_twitter_video env_no_name url0 tmp0 world0).1 = Ret record_no_name
  /\ dict_get record_no_name "uploader" = []
  /\ dict_get record_no_name "uploader_id" = lit "ana"
  /\ author_name record_no_name = lit "Desconocido"
  /\ last (w_trace (fetch_and_relay env_no_name url0 tmp0 world0).2)
     = Some (EDiscord
               (FollowupFile
                  (Embed (lit "hola") 0x1DA1F2
                     (Some (lit "Desconocido (@ana)",
                            Some (lit "https://unavatar.io/x/ana")))
                     (Some (lit "Video • 2.9MB")))
                  video0 (lit "123.mp4"))).
Proof. repeat split; vm_compute; reflexivity. Qed.

(** C7, as stated, fails: for a post without text the summary does not show
    the empty description but a fixed text. *)
Lemma placeholder_description :
  (download_twitter_video env_no_text url0 tmp0 world0).1 = Ret record_no_text
  /\ suppress_url_previews (take 280 (dict_get record_no_text "description"))
     = []
  /\ last (w_trace (fetch_and_relay env_no_text url0 tmp0 world0).2)
     = Some (EDiscord
               (FollowupFile
                  (Embed (lit "Video de X") 0x1DA1F2
                     (Some (lit "Ana (@ana)",
                            Some (lit "https://unavatar.io/x/ana")))
                     (Some (lit "Video • 2.9MB")))
                  video0 (lit "123.mp4"))).
Proof. repeat split; vm_compute; reflexivity. Qed.

(** ** The samples of the specification *)

Example extract_canonical :
  extract_tweet_id (lit "https://x.com/user/status/123456")
  = Some (lit "123456").
Proof. reflexivity. Qed.

Example extract_web_status :
  extract_tweet_id (lit "https://twitter.com/i/web/status/987")
  = Some (lit "987").
Proof. reflexivity. Qed.

Example extract_no_status :
  extract_tweet_id (lit "https://x.com/user/likes") = None.
Proof. reflexivity. Qed.

(** The downloader exits with 0 and 3 MB are uploaded: one public message
    with the file, and the directory is gone. *)
Example scenario_upload :
  replace_twitter env_ok url0 world0
  = (Ret tt,
     World ∅ [Exited (cmd_args url0 tmp0 (lit "123")) 0]
       [EDiscord DeferResponse; EMkdtemp;
        ESpawn (cmd_args url0 tmp0 (lit "123")); ECommunicate 0;
        EGlob tmp0 (lit "123.*"); EStat video0; EStat video0; EOpen video0;
        EDiscord
          (FollowupFile
             (Embed (lit "hola <https://t.co/x> fin") 0x1DA1F2
                (Some (lit "Ana (@ana)",
                       Some (lit "https://unavatar.io/x/ana")))
                (Some (lit "Video • 2.9MB")))
             video0 (lit "123.mp4"));
        ERmtree tmp0]).
Proof. vm_compute. reflexivity. Qed.

(** The downloader exits with 0 and no file is there: one ephemeral error,
    and the directory is gone. *)
Example scenario_missing_file :
  replace_twitter
    {| discord_answer := fun _ => None; mkdtemp_answer := inr tmp0;
       spawn_answer := None;
       wait_answer := Completed 0 (inr stdout7) (inr []);
       glob_answer := fun _ => inr []; stat_answer := fun _ => inr 0%Z;
       open_answer := None; rmtree_answer := None |}
    url0 world0
  = (Ret tt,
     World ∅ [Exited (cmd_args url0 tmp0 (lit "123")) 0]
       [EDiscord DeferResponse; EMkdtemp;
        ESpawn (cmd_args url0 tmp0 (lit "123")); ECommunicate 0;
        EGlob tmp0 (lit "123.*"); EGlob tmp0 (lit "*");
        EDiscord (FollowupSend (msg_fetch_error (msg_no_file tmp0)) true);
        ERmtree tmp0]).
Proof. vm_compute. reflexivity. Qed.

(** * More of the text functions *)

(** ** [output.split(sep)] *)

(** [sep.join(parts)] *)
Fixpoint join (sep : N) (parts : list (list N)) : list N :=
  match parts with
  | [] => []
  | [p] => p
  | p :: ps => p ++ sep :: join sep ps
  end.

(** How often a character occurs in a text. *)
Definition occurrences (c : N) (s : list N) : nat :=
  length (filter (fun x => x = c) s).

Lemma split_nonempty sep s : exists p ps, split sep s = p :: ps.
Proof.
  induction s as [|c s (p & ps & IH)]; simpl; [eauto|].
  destruct (c =? sep); [eauto|]. rewrite IH. eauto.
Qed.

Lemma split_app_sep sep a b :
  split sep (a ++ sep :: b) = split sep a ++ split sep b.
Proof.
  induction a as [|c a IH]; simpl.
  - by rewrite N.eqb_refl.
  - destruct (c =? sep); [by rewrite IH|].
    rewrite IH. by destruct (split_nonempty sep a) as (p & ps & ->).
Qed.

Lemma split_no_sep sep s : sep ∉ s -> split sep s = [s].
Proof.
  induction s as [|c s IH]; [done|].
  intros [Hne Hs]%not_elem_of_cons. simpl.
  destruct (N.eqb_spec c sep) as [->|_]; [done|]. by rewrite IH.
Qed.

(** The fields that [split] gives: one more than there are separators, none
    of them holding the separator, and [join] puts the text together
    again. *)
Theorem split_fields (s : list N) :
  length (split sep s) = S (occurrences sep s)
  /\ Forall (fun field => sep ∉ field) (split sep s)
  /\ join sep (split sep s) = s.
Proof.
  induction s as [|c s (IHlen & IHall & IHjoin)].
  - split; [done|]. split; [|done]. repeat constructor. apply not_elem_of_nil.
  - unfold occurrences in *. cbn [split]. rewrite filter_cons.
    destruct (N.eqb_spec c sep) as [->|Hne].
    + rewrite decide_True by done. cbn [length]. rewrite IHlen.
      split; [done|]. split.
      * constructor; [apply not_elem_of_nil | done].
      * destruct (split_nonempty sep s) as (p & ps & Hs). rewrite Hs in *.
        change (join sep ([] :: p :: ps)) with (sep :: join sep (p :: ps)).
        by rewrite IHjoin.
    + rewrite decide_False by done.
      destruct (split_nonempty sep s) as (p & ps & Hs). rewrite Hs in *.
      split; [done|]. split.
      * apply Forall_cons in IHall as [Hp Hps]. constructor; [|done].
        apply not_elem_of_cons. split; [congruence | done].
      * destruct ps as [|q ps]; [cbn [join] in *; by rewrite IHjoin|].
        change (join sep ((c :: p) :: q :: ps))
          with (c :: join sep (p :: q :: ps)).
        by rewrite IHjoin.
Qed.

(** Fields without the separator come back from the joined text as they
    were. *)
Theorem split_join (parts : list (list N)) :
  parts <> [] ->
  Forall (fun field => sep ∉ field) parts ->
  split sep (join sep parts) = parts.
Proof.
  intros Hne Hall. induction Hall as [|p ps Hp Hps IH]; [done|].
  destruct ps as [|q ps].
  - cbn [join]. by apply split_no_sep.
  - change (join sep (p :: q :: ps)) with (p ++ sep :: join sep (q :: ps)).
    rewrite split_app_sep, IH by done. by rewrite split_no_sep.
Qed.

Lemma split_join_witness :
  split sep (join sep [lit "a"; []; lit "b c"]) = [lit "a"; []; lit "b c"].
Proof.
  apply (split_join [lit "a"; []; lit "b c"]); [discriminate|].
  repeat constructor; apply (bool_decide_unpack _); vm_compute; exact I.
Defined.

(** ** [Path(p).name] *)



(** ** [str.strip()] *)

(** A text that does not begin with white space. *)
Definition starts_clean (s : list N) : Prop :=
  match s with
  | [] => True
  | c :: _ => is_space c = false
  end.

Lemma lstrip_starts_clean s : starts_clean (lstrip s).
Proof.
  induction s as [|c s IH]; simpl; [done|].
  by destruct (is_space c) eqn:Hc.
Qed.

Lemma lstrip_clean s : starts_clean s -> lstrip s = s.
Proof. destruct s as [|c s]; simpl; [done|]. by intros ->. Qed.

Lemma lstrip_suffix s : exists sp, s = sp ++ lstrip s.
Proof.
  induction s as [|c s [sp IH]]; simpl; [by exists []|].
  destruct (is_space c); [|by exists []].
  exists (c :: sp). simpl. by rewrite <- IH.
Qed.

Lemma rstrip_prefix s : exists sp, s = rstrip s ++ sp.
Proof.
  unfold rstrip. destruct (lstrip_suffix (reverse s)) as [sp Hsp].
  exists (reverse sp). rewrite <- reverse_app, <- Hsp. by rewrite reverse_involutive.
Qed.

Lemma rstrip_starts_clean s : starts_clean s -> starts_clean (rstrip s).
Proof.
  intros Hs. destruct (rstrip_prefix s) as [sp Hsp].
  destruct (rstrip s) as [|c r]; [done|]. by rewrite Hsp in Hs.
Qed.

Lemma strip_starts_clean s : starts_clean (strip s).
Proof. apply rstrip_starts_clean, lstrip_starts_clean. Qed.

Lemma strip_ends_clean s : starts_clean (reverse (strip s)).
Proof.
  unfold strip, rstrip. rewrite reverse_involutive. apply lstrip_starts_clean.
Qed.

Lemma strip_idempotent s : strip (strip s) = strip s.
Proof.
  unfold strip at 1. rewrite (lstrip_clean _ (strip_starts_clean s)).
  unfold rstrip. rewrite (lstrip_clean _ (strip_ends_clean s)).
  apply reverse_involutive.
Qed.

(** The fields of a fetched record are trimmed when the record is built, so
    the [.strip()] calls of the command find nothing to remove, and neither
    of the texts it shows begins or ends with white space. *)
Theorem fetched_fields_are_trimmed
    (video_path title thumbnail uploader uploader_id description upload_date
       : list N) :
  let d := success_dict video_path title thumbnail uploader uploader_id
             description upload_date in
  strip (dict_get d "uploader") = dict_get d "uploader"
  /\ strip (dict_get d "uploader_id") = dict_get d "uploader_id"
  /\ strip (dict_get d "description") = dict_get d "description"
  /\ strip (dict_get d "thumbnail") = dict_get d "thumbnail"
  /\ author_handle d = strip uploader_id
  /\ starts_clean (author_handle d)
  /\ starts_clean (reverse (author_handle d)).
Proof.
  intros d.
  assert (dict_get d "uploader" = strip uploader) as -> by done.
  assert (dict_get d "description" = strip description) as -> by done.
  assert (dict_get d "thumbnail" = strip thumbnail) as -> by done.
  assert (author_handle d = strip uploader_id) as ->.
  { unfold author_handle.
    assert (dict_get d "uploader_id" = strip uploader_id) as -> by done.
    apply strip_idempotent. }
  assert (dict_get d "uploader_id" = strip uploader_id) as -> by done.
  rewrite !strip_idempotent.
  repeat split; first [apply strip_starts_clean | apply strip_ends_clean].
Qed.

(** ** [str.replace] in the link rewriters *)

Lemma replace_first_occurrence o old' new s :
  contains (o :: old') s = true ->
  exists a b,
    s = a ++ (o :: old') ++ b
    /\ replace_scan o old' new s = a ++ new ++ replace_scan o old' new b.
Proof.
  induction s as [|c s IH]; rewrite contains_unfold; [done|].
  destruct (strip_prefix (o :: old') (c :: s)) as [rest|] eqn:Hp.
  - intros _. exists [], rest. split; [by apply strip_prefix_app in Hp|].
    by apply replace_scan_match.
  - intros Hs. destruct (IH Hs) as (a & b & -> & Hr).
    exists (c :: a), b. split; [done|].
    rewrite replace_scan_skip by done. by rewrite Hr.
Qed.

Lemma replace_scan_length o old' new s :
  (length (o :: old') <= length new)%nat ->
  (length s <= length (replace_scan o old' new s))%nat
  /\ (length new = length (o :: old') ->
      length (replace_scan o old' new s) = length s).
Proof.
  intros Hlen. remember (length s) as n eqn:Hn. revert s Hn.
  induction n as [n IH] using lt_wf_ind. intros s ->.
  destruct s as [|c s]; [by rewrite replace_scan_equation_1|].
  destruct (strip_prefix (o :: old') (c :: s)) as [rest|] eqn:Hp.
  - rewrite (replace_scan_match _ _ _ _ _ Hp), length_app.
    pose proof (strip_prefix_app _ _ _ Hp) as Hs.
    apply (f_equal length) in Hs. rewrite length_app in Hs.
    cbn [length] in Hs, Hlen |- *.
    destruct (IH (length rest)) with (s := rest) as [Hge Heq];
      [simpl; lia | done |].
    split; [lia|]. intros Hsame. rewrite (Heq Hsame). lia.
  - rewrite (replace_scan_skip _ _ _ _ _ Hp). cbn [length].
    destruct (IH (length s)) with (s := s) as [Hge Heq]; [simpl; lia | done |].
    split; [lia|]. intros Hsame. by rewrite (Heq Hsame).
Qed.

(** What [/ig] answers is longer than the URL and still holds
    "instagram.com", inside "kkinstagram.com": given its own answer, the
    command rewrites it once more. *)
Theorem instagram_rewrite_repeats (E : env) (url : list N) :
  contains (lit "instagram.com") url = true ->
  let new_url := replace (lit "instagram.com") (lit "kkinstagram.com") url in
  replace_instagram E url = discord E (SendMessage new_url false)
  /\ contains (lit "instagram.com") new_url = true
  /\ (length url + 2 <= length new_url)%nat
  /\ replace_instagram E new_url
     = discord E
         (SendMessage
            (replace (lit "instagram.com") (lit "kkinstagram.com") new_url)
            false).
Proof.
  intros Hin new_url.
  assert (contains (lit "instagram.com") new_url = true
          /\ (length url + 2 <= length new_url)%nat) as [Hagain Hlen].
  { subst new_url.
    change (lit "instagram.com") with (105 :: lit "nstagram.com") in *.
    cbn [replace].
    destruct (replace_first_occurrence _ _ (lit "kkinstagram.com") _ Hin)
      as (a & b & -> & ->).
    split.
    - apply contains_true_iff.
      exists (a ++ lit "kk"), (replace_scan 105 (lit "nstagram.com")
                                 (lit "kkinstagram.com") b).
      by rewrite <- !(assoc_L (++)).
    - destruct (replace_scan_length 105 (lit "nstagram.com")
                  (lit "kkinstagram.com") b) as [Hge _]; [vm_compute; lia|].
      rewrite !length_app.
      change (length (lit "kkinstagram.com")) with 15%nat.
      change (length (105 :: lit "nstagram.com")) with 13%nat. lia. }
  split; [unfold replace_instagram; by rewrite Hin|].
  split; [done|]. split; [done|].
  unfold replace_instagram. by rewrite Hagain.
Qed.

Lemma instagram_rewrite_repeats_witness :
  replace_instagram env_ok (lit "https://kkinstagram.com/p/abc")
  = discord env_ok (SendMessage (lit "https://kkkkinstagram.com/p/abc") false).
Proof.
  destruct (instagram_rewrite_repeats env_ok (lit "https://instagram.com/p/abc")
              eq_refl) as (_ & _ & _ & Hagain).
  exact Hagain.
Defined.

(** What [/rx] answers has the length of the URL and is not the URL. *)
Theorem reddit_rewrite_changes_in_place (E : env) (url : list N) :
  contains (lit "reddit.com") url = true ->
  let new_url := replace (lit "reddit.com") (lit "rxddit.com") url in
  replace_reddit E url = discord E (SendMessage new_url false)
  /\ length new_url = length url
  /\ new_url <> url.
Proof.
  intros Hin new_url.
  split; [unfold replace_reddit; by rewrite Hin|].
  subst new_url. change (lit "reddit.com") with (114 :: lit "eddit.com") in *.
  cbn [replace]. split.
  - by apply replace_scan_length.
  - destruct (replace_first_occurrence _ _ (lit "rxddit.com") _ Hin)
      as (a & b & -> & ->).
    intros Heq. apply app_inv_head in Heq. discriminate Heq.
Qed.

Lemma reddit_rewrite_changes_in_place_witness :
  length (replace (lit "reddit.com") (lit "rxddit.com")
            (lit "https://reddit.com/r/x"))
  = length (lit "https://reddit.com/r/x").
Proof.
  exact (proj1 (proj2 (reddit_rewrite_changes_in_place env_ok
                         (lit "https://reddit.com/r/x") eq_refl))).
Defined.

(** * More of the URL preview suppressor *)

(** A character other than the two angle brackets. *)
Definition not_bracket (c : N) : Prop := c <> 60 /\ c <> 62.

#[local] Instance not_bracket_dec c : Decision (not_bracket c).
Proof. unfold not_bracket. apply _. Defined.

Lemma url_at_long s u rest :
  url_at s = Some (u, rest) -> (8 <= length u)%nat.
Proof.
  intros Hm. apply url_at_is_url in Hm as [(body & Hu & Hne & _) _].
  destruct body as [|c body]; [done|].
  destruct Hu as [-> | ->]; rewrite length_app; vm_compute length; simpl; lia.
Qed.

Lemma filter_wrap_url u :
  filter not_bracket (wrap_url u) = filter not_bracket u.
Proof.
  unfold wrap_url. rewrite !filter_app.
  change (filter not_bracket (lit "<")) with (@nil N).
  change (filter not_bracket (lit ">")) with (@nil N).
  by rewrite (right_id_L [] (++)).
Qed.

Lemma re_sub_url_effect (s : list N) :
  filter not_bracket (re_sub_url s) = filter not_bracket s
  /\ (length s <= length (re_sub_url s))%nat
  /\ (4 * length (re_sub_url s) <= 5 * length s)%nat.
Proof.
  remember (length s) as n eqn:Hn. revert s Hn.
  induction n as [n IH] using lt_wf_ind. intros s ->.
  destruct s as [|c s]; [by rewrite re_sub_url_equation_1|].
  destruct (url_at (c :: s)) as [[u rest]|] eqn:Hm.
  - rewrite (re_sub_url_match _ _ _ Hm).
    pose proof (url_at_app _ _ _ Hm) as Hs.
    pose proof (url_at_shorter _ _ _ Hm) as Hshort.
    pose proof (url_at_long _ _ _ Hm) as Hlong.
    destruct (IH (length rest) Hshort rest eq_refl) as (IHf & IHlo & IHhi).
    rewrite Hs, !filter_app, filter_wrap_url, IHf, !length_app.
    unfold wrap_url. rewrite !length_app.
    change (length (lit "<")) with 1%nat. change (length (lit ">")) with 1%nat.
    split; [done|]. lia.
  - rewrite (re_sub_url_skip _ _ Hm).
    destruct (IH (length s)) with (s := s) as (IHf & IHlo & IHhi);
      [simpl; lia | done |].
    rewrite !filter_cons, IHf. cbn [length]. split; [done|]. lia.
Qed.

(** [suppress_url_previews] adds angle brackets and nothing else: without
    the angle brackets the result reads as the text does, and it is at least
    as long as the text and at most a quarter longer. *)
Theorem suppress_only_adds_brackets (text : list N) :
  filter not_bracket (suppress_url_previews text) = filter not_bracket text
  /\ (length text <= length (suppress_url_previews text))%nat
  /\ (4 * length (suppress_url_previews text) <= 5 * length text)%nat.
Proof. rewrite suppress_is_re_sub. apply re_sub_url_effect. Qed.

(** A URL that stands alone is put between angle brackets, and a URL that
    already stands between angle brackets is wrapped once more: the brackets
    end the match, they do not prevent it. *)
Theorem suppress_wraps_again (u : list N) :
  is_url u ->
  suppress_url_previews u = lit "<" ++ u ++ lit ">"
  /\ suppress_url_previews (lit "<" ++ u ++ lit ">")
     = lit "<<" ++ u ++ lit ">>".
Proof.
  intros Hu. rewrite !suppress_is_re_sub.
  assert (re_sub_url [62] = [62]) as Hclose.
  { rewrite re_sub_url_skip by reflexivity. by rewrite re_sub_url_equation_1. }
  split.
  - rewrite <- (right_id_L [] (++) u) at 1.
    rewrite (re_sub_url_match _ _ _ (url_at_exact u [] Hu I)).
    by rewrite re_sub_url_equation_1, (right_id_L [] (++)).
  - change (lit "<" ++ u ++ lit ">") with (60 :: u ++ [62]).
    rewrite re_sub_url_skip by reflexivity.
    rewrite (re_sub_url_match _ _ _ (url_at_exact u [62] Hu eq_refl)), Hclose.
    unfold wrap_url. by rewrite <- !(assoc_L (++)).
Qed.

Lemma suppress_wraps_again_witness :
  suppress_url_previews (suppress_url_previews (lit "https://t.co/a"))
  = lit "<<https://t.co/a>>".
Proof.
  assert (is_url (lit "https://t.co/a")) as Hu.
  { exists (lit "t.co/a"). split; [right; reflexivity|].
    split; [discriminate|]. vm_compute. repeat constructor. }
  destruct (suppress_wraps_again _ Hu) as [-> ->]. reflexivity.
Defined.

(** * More of [extract_tweet_id] *)

(** A text that does not go on with a character of a class. *)
Definition stops (p : N -> bool) (rest : list N) : Prop :=
  match rest with
  | [] => True
  | c :: _ => p c = false
  end.

Lemma span_stops p rest : stops p rest -> span p rest = ([], rest).
Proof. destruct rest as [|c rest]; simpl; [done|]. by intros ->. Qed.

Lemma span_exact p body rest :
  Forall (fun c => p c = true) body -> stops p rest ->
  span p (body ++ rest) = (body, rest).
Proof.
  intros Hbody Hrest. rewrite (span_all _ _ _ Hbody), (span_stops _ _ Hrest).
  simpl. by rewrite (right_id_L [] (++)).
Qed.

Lemma then_Some p k s g :
  then_ p k s = Some g -> exists r, s = p ++ r /\ k r = Some g.
Proof.
  unfold then_. destruct (strip_prefix p s) as [r|] eqn:Hp; [|done].
  intros Hk. exists r. split; [by apply strip_prefix_app | done].
Qed.

Lemma then_app p k r : then_ p k (p ++ r) = k r.
Proof. unfold then_. by rewrite strip_prefix_of_app. Qed.

Lemma re_search_unfold (pattern : list N -> option (list N)) s :
  re_search pattern s
  = match pattern s with
    | Some g => Some g
    | None => match s with [] => None | _ :: s' => re_search pattern s' end
    end.
Proof. by destruct s. Qed.

Lemma re_search_Some (pattern : list N -> option (list N)) s g :
  re_search pattern s = Some g -> exists a b, s = a ++ b /\ pattern b = Some g.
Proof.
  induction s as [|c s IH]; rewrite re_search_unfold.
  - destruct (pattern []) eqn:Hp; [|done]. intros [= <-]. by exists [], [].
  - destruct (pattern (c :: s)) eqn:Hp.
    + intros [= <-]. by exists [], (c :: s).
    + intros (a & b & -> & Hb)%IH. by exists (c :: a), b.
Qed.

Section Extract.
Context `{RT : Runtime}.

(** One of the two domains that the patterns accept. *)
Definition is_domain (dom : list N) : Prop :=
  dom = lit "twitter.com" \/ dom = lit "x.com".

Lemma digits_group_Some s g :
  digits_group s = Some g ->
  g <> [] /\ Forall (fun c => is_digit c = true) g /\ exists rest, s = g ++ rest.
Proof.
  unfold digits_group.
  pose proof (span_Forall is_digit s) as Hall.
  pose proof (span_app is_digit s) as Happ.
  destruct (span is_digit s) as [d rest]; simpl in *.
  destruct (truthy d) eqn:Hd; [|done]. intros [= <-].
  split; [by apply truthy_nonempty|]. split; [done|]. by exists rest.
Qed.

Lemma digits_group_exact id rest :
  id <> [] -> Forall (fun c => is_digit c = true) id -> stops is_digit rest ->
  digits_group (id ++ rest) = Some id.
Proof.
  intros Hne Hid Hrest. unfold digits_group.
  rewrite (span_exact _ _ _ Hid Hrest). by destruct id.
Qed.

Lemma after_domain_Some k s g :
  after_domain k s = Some g ->
  exists dom r, is_domain dom /\ s = dom ++ r /\ k r = Some g.
Proof.
  unfold after_domain.
  destruct (then_ (lit "twitter.com") k s) as [g'|] eqn:Ht.
  - intros [= <-]. apply then_Some in Ht as (r & -> & Hk).
    exists (lit "twitter.com"), r. split; [by left | done].
  - intros (r & -> & Hk)%then_Some.
    exists (lit "x.com"), r. split; [by right | done].
Qed.

(** What a match of the first pattern looks like. *)
Lemma status_pattern_Some s g :
  status_pattern s = Some g ->
  exists dom user rest,
    is_domain dom
    /\ s = dom ++ lit "/" ++ user ++ lit "/status/" ++ g ++ rest
    /\ g <> [] /\ Forall (fun c => is_digit c = true) g.
Proof.
  unfold status_pattern.
  intros (dom & r & Hdom & -> & (r1 & -> & Hk)%then_Some)%after_domain_Some.
  pose proof (span_app is_word r1) as Happ.
  destruct (span is_word r1) as [w r2]; simpl in Happ.
  destruct (truthy w); [|done].
  apply then_Some in Hk as (r3 & -> & (Hne & Hall & rest & ->)%digits_group_Some).
  exists dom, w, rest. by rewrite <- Happ.
Qed.

(** What a match of the second pattern looks like. *)
Lemma web_status_pattern_Some s g :
  web_status_pattern s = Some g ->
  exists dom mid rest,
    is_domain dom
    /\ s = dom ++ lit "/i/" ++ mid ++ lit "status/" ++ g ++ rest
    /\ g <> [] /\ Forall (fun c => is_digit c = true) g.
Proof.
  unfold web_status_pattern.
  intros (dom & r & Hdom & -> & (r1 & -> & Hk)%then_Some)%after_domain_Some.
  destruct (then_ (lit "web/") _ r1) as [g'|] eqn:Hweb.
  - injection Hk as ->.
    apply then_Some in Hweb as (r2 & -> & (r3 & -> & Hd)%then_Some).
    apply digits_group_Some in Hd as (Hne & Hall & rest & ->).
    by exists dom, (lit "web/"), rest.
  - apply then_Some in Hk as (r3 & -> & (Hne & Hall & rest & ->)%digits_group_Some).
    by exists dom, [], rest.
Qed.

(** Where an extracted identifier stands in the URL. *)
Lemma extract_tweet_id_Some url tweet_id :
  extract_tweet_id url = Some tweet_id ->
  exists a dom mid rest,
    is_domain dom
    /\ url = a ++ dom ++ mid ++ lit "status/" ++ tweet_id ++ rest
    /\ tweet_id <> []
    /\ Forall (fun c => is_digit c = true) tweet_id.
Proof.
  unfold extract_tweet_id. intros Hid.
  destruct (re_search status_pattern url) as [g|] eqn:H1.
  - injection Hid as ->.
    apply re_search_Some in H1 as (a & b & -> & Hb).
    apply status_pattern_Some in Hb as (dom & user & rest & ? & -> & ? & ?).
    exists a, dom, (lit "/" ++ user ++ lit "/"), rest.
    split; [done|]. split; [|done].
    change (lit "/status/") with (lit "/" ++ lit "status/").
    by rewrite <- !(assoc_L (++)).
  - apply re_search_Some in Hid as (a & b & -> & Hb).
    apply web_status_pattern_Some in Hb as (dom & mid & rest & ? & -> & ? & ?).
    exists a, dom, (lit "/i/" ++ mid), rest.
    split; [done|]. split; [|done]. by rewrite <- !(assoc_L (++)).
Qed.

(** An identifier that [extract_tweet_id] returns is a non-empty run of
    digits that follows "status/" in the URL, and the URL holds one of the
    two domains: it passes the domain test of the [/vx] command. *)
Theorem extracted_id_is_digits (url tweet_id : list N) :
  extract_tweet_id url = Some tweet_id ->
  tweet_id <> []
  /\ Forall (fun c => is_digit c = true) tweet_id
  /\ contains (lit "status/" ++ tweet_id) url = true
  /\ contains (lit "twitter.com") url || contains (lit "x.com") url = true.
Proof.
  intros (a & dom & mid & rest & Hdom & -> & Hne & Hall)%extract_tweet_id_Some.
  split; [done|]. split; [done|]. split.
  - apply contains_true_iff. exists (a ++ dom ++ mid), rest.
    by rewrite <- !(assoc_L (++)).
  - apply orb_true_iff.
    destruct Hdom as [-> | ->]; [left | right]; apply contains_true_iff; eauto.
Qed.

(** A URL without "status/" has no identifier, and the fetcher answers it
    with the error dictionary at once: no process is started and nothing
    outside is touched. *)
Theorem no_status_no_fetch (E : env) (url output_dir : list N) (w : world) :
  (forall a b, url <> a ++ lit "status/" ++ b) ->
  extract_tweet_id url = None
  /\ download_twitter_video E url output_dir w
     = (Ret (error_dict msg_no_id), w).
Proof.
  intros Hno.
  assert (extract_tweet_id url = None) as Hid.
  { destruct (extract_tweet_id url) as [id|] eqn:Hid; [|done].
    apply extract_tweet_id_Some in Hid as (a & dom & mid & rest & _ & Hurl & _).
    destruct (Hno (a ++ dom ++ mid) (id ++ rest)).
    by rewrite Hurl, <- !(assoc_L (++)). }
  split; [done|]. unfold download_twitter_video. by rewrite Hid.
Qed.

(** Either scheme of a web address. *)
Definition is_scheme (scheme : list N) : Prop :=
  scheme = lit "https://" \/ scheme = lit "http://".

Lemma status_pattern_after_domain dom user tweet_id rest :
  is_domain dom ->
  user <> [] ->
  Forall (fun c => is_word c = true) user ->
  tweet_id <> [] ->
  Forall (fun c => is_digit c = true) tweet_id ->
  stops is_digit rest ->
  status_pattern (dom ++ lit "/" ++ user ++ lit "/status/" ++ tweet_id ++ rest)
  = Some tweet_id.
Proof.
  intros Hdom Hu Huser Hne Hid Hrest.
  assert (then_ (lit "/")
            (fun r1 =>
               let '(w, r2) := span is_word r1 in
               if truthy w then then_ (lit "/status/") digits_group r2
               else None)
            (lit "/" ++ user ++ lit "/status/" ++ tweet_id ++ rest)
          = Some tweet_id) as Htail.
  { rewrite then_app, (span_exact is_word user) by done.
    destruct user; [done|]. cbn [truthy].
    by rewrite then_app, digits_group_exact. }
  unfold status_pattern, after_domain.
  destruct Hdom as [-> | ->].
  - by rewrite then_app, Htail.
  - change (then_ (lit "twitter.com") _ (lit "x.com" ++ _)) with (@None (list N)).
    by rewrite then_app, Htail.
Qed.

(** The canonical address of a post, under either scheme and either domain:
    the identifier is the run of digits after "/status/", whatever follows
    it. *)
Theorem canonical_status_url (scheme dom user tweet_id rest : list N) :
  is_scheme scheme ->
  is_domain dom ->
  user <> [] ->
  Forall (fun c => is_word c = true) user ->
  tweet_id <> [] ->
  Forall (fun c => is_digit c = true) tweet_id ->
  stops is_digit rest ->
  extract_tweet_id
    (scheme ++ dom ++ lit "/" ++ user ++ lit "/status/" ++ tweet_id ++ rest)
  = Some tweet_id.
Proof.
  intros Hscheme Hdom Hu Huser Hne Hid Hrest.
  pose proof (status_pattern_after_domain dom user tweet_id rest
                Hdom Hu Huser Hne Hid Hrest) as Hm.
  unfold extract_tweet_id.
  match goal with
  | |- context [re_search status_pattern (scheme ++ ?X)] =>
      assert (re_search status_pattern (scheme ++ X) = Some tweet_id) as ->;
        [|done]
  end.
  destruct Hscheme as [-> | ->].
  - match goal with
    | |- re_search _ (_ ++ ?X) = _ =>
        change (re_search status_pattern (lit "https://" ++ X))
          with (re_search status_pattern X)
    end.
    by rewrite re_search_unfold, Hm.
  - match goal with
    | |- re_search _ (_ ++ ?X) = _ =>
        change (re_search status_pattern (lit "http://" ++ X))
          with (re_search status_pattern X)
    end.
    by rewrite re_search_unfold, Hm.
Qed.

Lemma is_digit_not_letter c :
  is_digit c = true -> c <> 116 /\ c <> 120.
Proof. intros Hc. split; intros ->; discriminate Hc. Qed.

Lemma status_pattern_digit c s : is_digit c = true -> status_pattern (c :: s) = None.
Proof.
  intros [Ht Hx]%is_digit_not_letter.
  unfold status_pattern, after_domain, then_.
  change (lit "twitter.com") with (116 :: lit "witter.com").
  change (lit "x.com") with (120 :: lit ".com").
  cbn [strip_prefix].
  destruct (N.eqb_spec 116 c); [done|]. by destruct (N.eqb_spec 120 c).
Qed.

Lemma re_search_status_digits tweet_id rest :
  Forall (fun c => is_digit c = true) tweet_id ->
  re_search status_pattern (tweet_id ++ rest) = re_search status_pattern rest.
Proof.
  induction 1 as [|c tweet_id Hc _ IH]; [done|].
  cbn [app]. rewrite re_search_unfold, (status_pattern_digit _ _ Hc). done.
Qed.

Lemma re_search_status_None rest :
  (forall a b, rest <> a ++ lit "/status/" ++ b) ->
  re_search status_pattern rest = None.
Proof.
  intros Hno. destruct (re_search status_pattern rest) as [g|] eqn:Hs; [|done].
  apply re_search_Some in Hs as (a & b & -> & Hb).
  apply status_pattern_Some in Hb as (dom & user & r & _ & -> & _).
  destruct (Hno (a ++ dom ++ lit "/" ++ user) (g ++ r)).
  by rewrite <- !(assoc_L (++)).
Qed.

Lemma web_status_pattern_after_domain dom tweet_id rest :
  is_domain dom ->
  tweet_id <> [] ->
  Forall (fun c => is_digit c = true) tweet_id ->
  stops is_digit rest ->
  web_status_pattern (dom ++ lit "/i/web/status/" ++ tweet_id ++ rest)
  = Some tweet_id.
Proof.
  intros Hdom Hne Hid Hrest.
  pose proof (digits_group_exact tweet_id rest Hne Hid Hrest) as Hd.
  change (lit "/i/web/status/" ++ tweet_id ++ rest)
    with (lit "/i/" ++ lit "web/" ++ lit "status/" ++ tweet_id ++ rest).
  unfold web_status_pattern, after_domain.
  destruct Hdom as [-> | ->].
  - by rewrite !then_app, Hd.
  - change (then_ (lit "twitter.com") _ (lit "x.com" ++ _)) with (@None (list N)).
    by rewrite !then_app, Hd.
Qed.

(** The "i/web/status" address of a post: the identifier is the run of
    digits after "status/".  The first pattern is searched through the whole
    URL before the second one is tried, so what follows the identifier must
    not hold a "/status/" of its own. *)
Theorem web_status_url (scheme dom tweet_id rest : list N) :
  is_scheme scheme ->
  is_domain dom ->
  tweet_id <> [] ->
  Forall (fun c => is_digit c = true) tweet_id ->
  stops is_digit rest ->
  (forall a b, rest <> a ++ lit "/status/" ++ b) ->
  extract_tweet_id (scheme ++ dom ++ lit "/i/web/status/" ++ tweet_id ++ rest)
  = Some tweet_id.
Proof.
  intros Hscheme Hdom Hne Hid Hrest Hno.
  pose proof (web_status_pattern_after_domain dom tweet_id rest
                Hdom Hne Hid Hrest) as Hweb.
  assert (re_search status_pattern (tweet_id ++ rest) = None) as Hfirst.
  { by rewrite re_search_status_digits, re_search_status_None. }
  unfold extract_tweet_id.
  assert (re_search status_pattern
            (scheme ++ dom ++ lit "/i/web/status/" ++ tweet_id ++ rest)
          = None) as ->.
  { rewrite <- Hfirst. by destruct Hscheme as [-> | ->], Hdom as [-> | ->]. }
  assert (re_search web_status_pattern
            (scheme ++ dom ++ lit "/i/web/status/" ++ tweet_id ++ rest)
          = re_search web_status_pattern
              (dom ++ lit "/i/web/status/" ++ tweet_id ++ rest)) as ->.
  { by destruct Hscheme as [-> | ->]. }
  by rewrite re_search_unfold, Hweb.
Qed.

End Extract.

Lemma extracted_id_is_digits_witness :
  contains (lit "status/" ++ lit "123") url0 = true
  /\ Forall (fun c => is_digit c = true) (lit "123").
Proof.
  destruct (extracted_id_is_digits url0 (lit "123") eq_refl)
    as (_ & Hall & Hin & _).
  split; [exact Hin | exact Hall].
Defined.

Lemma no_status_no_fetch_witness :
  download_twitter_video env_ok (lit "https://x.com/user/likes") tmp0 world0
  = (Ret (error_dict msg_no_id), world0).
Proof.
  apply (no_status_no_fetch env_ok (lit "https://x.com/user/likes") tmp0 world0).
  apply contains_false_iff. vm_compute. reflexivity.
Defined.

Lemma canonical_status_url_witness :
  extract_tweet_id
    (lit "https://" ++ lit "x.com" ++ lit "/" ++ lit "user_1" ++ lit "/status/"
     ++ lit "123456" ++ lit "?s=20")
  = Some (lit "123456").
Proof.
  apply (canonical_status_url (lit "https://") (lit "x.com") (lit "user_1")
           (lit "123456") (lit "?s=20")).
  - left. reflexivity.
  - right. reflexivity.
  - discriminate.
  - vm_compute. repeat constructor.
  - discriminate.
  - vm_compute. repeat constructor.
  - reflexivity.
Defined.

Lemma web_status_url_witness :
  extract_tweet_id
    (lit "https://" ++ lit "twitter.com" ++ lit "/i/web/status/" ++ lit "987"
     ++ lit "/photo/1")
  = Some (lit "987").
Proof.
  apply (web_status_url (lit "https://") (lit "twitter.com") (lit "987")
           (lit "/photo/1")).
  - left. reflexivity.
  - left. reflexivity.
  - discriminate.
  - vm_compute. repeat constructor.
  - reflexivity.
  - apply contains_false_iff. vm_compute. reflexivity.
Defined.

(** * More of the video fetcher *)

Lemma alter_snoc {A} (f : A -> A) (l : list A) (x : A) :
  alter f (length l) (l ++ [x]) = l ++ [f x].
Proof.
  rewrite <- (Nat.add_0_r (length l)). by rewrite alter_app_r.
Qed.

(** A call that [download_twitter_video] makes. *)
Definition is_fetch_call (ev : event) : bool :=
  match ev with
  | ESpawn _ | ECommunicate _ | EGlob _ _ | EStat _ => true
  | _ => false
  end.

(** The process table after a fetch that started from the children [cs]. *)
Definition children_after `{RT : Runtime} (E : env) (url output_dir : list N)
    (cs : list child) : list child :=
  match extract_tweet_id url with
  | None | Some [] => cs
  | Some tweet_id =>
    let argv := cmd_args url output_dir tweet_id in
    match spawn_answer E with
    | Some _ => cs
    | None =>
      match wait_answer E with
      | Completed rc _ _ => cs ++ [Exited argv rc]
      | TimedOut | WaitFailed _ => cs ++ [Running argv]
      end
    end
  end.

Section FetcherEffects.
Context `{RT : Runtime} (E : env).

(** The run of [download_twitter_video], laid out case by case. *)
Ltac fetch_leaves :=
  unfold download_twitter_video, children_after;
  destruct (extract_tweet_id _) as [[|? ?]|];
    [| unfold try_except, run_downloader; unfold_calls;
       destruct (spawn_answer E) as [?|]; run;
         [| destruct (wait_answer E) as [? [?|?] [?|?] | |]; run;
            [| | |
             destruct (negb (_ =? 0)%Z); run;
               [| destruct (Nat.ltb _ 7); run;
                  [| match goal with
                     | |- context [unpack7 ?parts ?w0] =>
                         destruct (unpack7_cases parts w0)
                           as [(? & ? & ? & ? & ? & ? & ? & _ & ->)
                              | (? & _ & ->)]
                     end; run;
                     [ destruct (glob_answer E _) as [?|[|? ?]]; run;
                         [| match goal with
                            | |- context [glob_answer E ?k] =>
                                destruct (glob_answer E k)
                            end; run
                          | destruct (stat_answer E _); run ]
                     | ] ] ] | | ] ] |];
  repeat match goal with
         | |- context [download_handler ?e] =>
             let m := fresh "m" in
             destruct (download_handler_total e) as (m & -> & _)
         end;
  unfold ret; cbn [fst snd w_dirs w_children w_trace];
  rewrite ?alter_snoc; cbn [exit_child].

Lemma download_run (url output_dir : list N) (w : world) :
  exists d calls,
    download_twitter_video E url output_dir w
    = (Ret d,
       World (w_dirs w) (children_after E url output_dir (w_children w))
             (w_trace w ++ calls))
    /\ Forall (fun ev => is_fetch_call ev = true) calls
    /\ (length calls <= 4)%nat.
Proof.
  fetch_leaves; rewrite <- ?app_assoc; cbn [app];
    first [ eexists _, []; rewrite (right_id_L [] (++));
            split; [by destruct w|]; split; [constructor | simpl; lia]
          | eexists _, _; split; [reflexivity|];
            split; [repeat constructor | simpl; lia] ].
Qed.

(** Whatever the outside world answers, a fetch leaves the directories as
    they are, and what it adds to the trace are at most four calls: the start of the downloader, the wait for it, and searches and
    sizes of files.  It sends nothing to Discord and removes nothing. *)
Theorem fetch_calls (url output_dir : list N) (w : world) :
  let w' := (download_twitter_video E url output_dir w).2 in
  w_dirs w' = w_dirs w
  /\ exists calls,
       w_trace w' = w_trace w ++ calls
       /\ Forall (fun ev => is_fetch_call ev = true) calls
       /\ (length calls <= 4)%nat.
Proof.
  destruct (download_run url output_dir w) as (d & calls & -> & Hcalls & Hlen).
  cbn. eauto.
Qed.

(** The fetcher starts at most one process and touches no other entry of
    the process table.  The child it started is recorded as exited when the
    wait for it returned, and as still running when the wait timed out or
    failed; when no identifier was found or the start failed there is no
    child. *)
Theorem fetch_process_table (url output_dir : list N) (w : world) :
  w_children (download_twitter_video E url output_dir w).2
  = children_after E url output_dir (w_children w).
Proof.
  by destruct (download_run url output_dir w) as (d & calls & -> & _).
Qed.

(** The message that the [except] clauses of the fetcher make of an
    exception. *)
Definition msg_of_exception (e : exn) : list N :=
  match kind e with
  | IsTimeout => msg_timeout
  | _ => msg_exception e
  end.

Lemma download_handler_msg e :
  download_handler e = Some (ret (error_dict (msg_of_exception e))).
Proof. unfold download_handler, msg_of_exception. by destruct (kind e). Qed.

(** A downloader that exits with a status other than 0 gives the error
    dictionary with that status and the trimmed text of its standard error.
    Its output is not parsed and the directory is not searched; the child is
    recorded as exited. *)
Theorem nonzero_exit_is_failure (url output_dir out err : list N) (c : N)
    (tweet_id : list N) (rc : Z) (w : world) :
  extract_tweet_id url = Some (c :: tweet_id) ->
  spawn_answer E = None ->
  wait_answer E = Completed rc (inr out) (inr err) ->
  rc <> 0%Z ->
  let argv := cmd_args url output_dir (c :: tweet_id) in
  download_twitter_video E url output_dir w
  = (Ret (error_dict (msg_exit rc (strip err))),
     World (w_dirs w)
           (w_children w ++ [Exited argv rc])
           (w_trace w ++ [ESpawn argv; ECommunicate (length (w_children w))])).
Proof.
  intros Hid Hspawn Hwait Hrc argv.
  unfold download_twitter_video. rewrite Hid.
  unfold try_except, run_downloader. unfold_calls. rewrite Hspawn. run.
  rewrite Hwait. run.
  destruct (Z.eqb_spec rc 0) as [|_]; [done|]. cbn [negb]. run.
  cbn [w_dirs w_children w_trace]. rewrite alter_snoc. cbn [exit_child].
  by rewrite <- app_assoc.
Qed.

(** A downloader that exits with 0 and prints its 7 fields, but leaves no
    file named after the identifier, gives the error dictionary that names
    the directory; the directory is listed once more and no size is read. *)
Theorem missing_file_is_failure (url output_dir out err : list N) (c : N)
    (tweet_id : list N) (all_files : list (list N)) (w : world) :
  extract_tweet_id url = Some (c :: tweet_id) ->
  spawn_answer E = None ->
  wait_answer E = Completed 0 (inr out) (inr err) ->
  length (split sep (strip out)) = 7%nat ->
  glob_answer E (count is_glob (w_trace w)) = inr [] ->
  glob_answer E (S (count is_glob (w_trace w))) = inr all_files ->
  let argv := cmd_args url output_dir (c :: tweet_id) in
  download_twitter_video E url output_dir w
  = (Ret (error_dict (msg_no_file output_dir)),
     World (w_dirs w)
           (w_children w ++ [Exited argv 0])
           (w_trace w
            ++ [ESpawn argv; ECommunicate (length (w_children w));
                EGlob output_dir ((c :: tweet_id) ++ lit ".*");
                EGlob output_dir (lit "*")])).
Proof.
  intros Hid Hspawn Hwait Hlen Hglob Hall argv.
  unfold download_twitter_video. rewrite Hid. unfold try_except.
  rewrite (run_downloader_exit0 _ _ _ _ _ _ _ Hspawn Hwait).
  destruct (split sep (strip out))
    as [|f0 [|f1 [|f2 [|f3 [|f4 [|f5 [|f6 [|f7 parts]]]]]]]];
    try discriminate Hlen.
  change (length [f0; f1; f2; f3; f4; f5; f6] <? 7)%nat with false.
  cbn [unpack7]. unfold_calls. run. cbn [w_trace]. count_events.
  rewrite Hglob. run. cbn [w_trace]. count_events.
  replace (count is_glob (w_trace w) + 1)%nat
    with (S (count is_glob (w_trace w))) by lia.
  rewrite Hall. run. cbn [w_dirs w_children w_trace].
  rewrite alter_snoc. cbn [exit_child]. by rewrite <- !app_assoc.
Qed.

(** An exception at the start of the downloader, or while its output is
    decoded, becomes the error dictionary that the [except] clauses make of
    it.  The output is decoded before the exit status is looked at, so
    output that does not decode is reported as such whatever the status
    was. *)
Theorem early_exception_is_failure (url output_dir : list N) (c : N)
    (tweet_id : list N) (e : exn) (w : world) :
  extract_tweet_id url = Some (c :: tweet_id) ->
  (spawn_answer E = Some e ->
   download_twitter_video E url output_dir w
   = (Ret (error_dict (msg_of_exception e)),
      log (ESpawn (cmd_args url output_dir (c :: tweet_id))) w))
  /\ (spawn_answer E = None ->
      forall rc out err,
        wait_answer E = Completed rc out err ->
        out = inl e \/ (exists text, out = inr text /\ err = inl e) ->
        (download_twitter_video E url output_dir w).1
        = Ret (error_dict (msg_of_exception e))).
Proof.
  intros Hid. split.
  - intros Hspawn. unfold download_twitter_video. rewrite Hid.
    unfold try_except, run_downloader. unfold_calls. rewrite Hspawn. run.
    by rewrite download_handler_msg.
  - intros Hspawn rc out err Hwait Hdecode.
    unfold download_twitter_video. rewrite Hid.
    unfold try_except, run_downloader. unfold_calls. rewrite Hspawn. run.
    rewrite Hwait. run.
    destruct Hdecode as [-> | (text & -> & ->)]; run;
      by rewrite download_handler_msg.
Qed.

End FetcherEffects.

(** The downloader finds no video in the post: it exits with status 1 and
    says so on its standard error. *)
Definition stderr_no_video : list N :=
  lit "ERROR: [twitter] 123: No video could be found in this tweet" ++ nl.

Definition env_exit1 : env :=
  env_of (Completed 1 (inr []) (inr stderr_no_video)) 0 None.

(** The downloader exits with 0 and leaves the directory empty. *)
Definition env_no_file : env := {|
  discord_answer := fun _ => None;
  mkdtemp_answer := inr tmp0;
  spawn_answer := None;
  wait_answer := Completed 0 (inr stdout7) (inr []);
  glob_answer := fun _ => inr [];
  stat_answer := fun _ => inr 0%Z;
  open_answer := None;
  rmtree_answer := None
|}.

(** [yt-dlp] is not installed: the process cannot be started. *)
Definition no_ytdlp : exn :=
  Exn IsOther (lit "FileNotFoundError")
    (lit "[Errno 2] No such file or directory: 'yt-dlp'").

Definition env_no_ytdlp : env := {|
  discord_answer := fun _ => None;
  mkdtemp_answer := inr tmp0;
  spawn_answer := Some no_ytdlp;
  wait_answer := TimedOut;
  glob_answer := fun _ => inr [];
  stat_answer := fun _ => inr 0%Z;
  open_answer := None;
  rmtree_answer := None
|}.

(** The downloader fails with status 1 and prints bytes that are not
    UTF-8. *)
Definition bad_utf8 : exn :=
  Exn IsOther (lit "UnicodeDecodeError")
    (lit "'utf-8' codec can't decode byte 0xff in position 0: invalid start byte").

Definition env_bad_utf8 : env :=
  env_of (Completed 1 (inl bad_utf8) (inr stderr_no_video)) 0 None.

Lemma nonzero_exit_is_failure_witness :
  (download_twitter_video env_exit1 url0 tmp0 world0).1
  = Ret (error_dict (msg_exit 1 (strip stderr_no_video))).
Proof.
  rewrite (nonzero_exit_is_failure env_exit1 url0 tmp0 [] stderr_no_video 49
             (lit "23") 1 world0);
    [reflexivity | vm_compute; reflexivity | reflexivity | reflexivity
    | discriminate].
Defined.

Lemma missing_file_is_failure_witness :
  (download_twitter_video env_no_file url0 tmp0 world0).1
  = Ret (error_dict (msg_no_file tmp0)).
Proof.
  rewrite (missing_file_is_failure env_no_file url0 tmp0 stdout7 [] 49
             (lit "23") [] world0);
    [reflexivity | vm_compute; reflexivity | reflexivity | reflexivity
    | vm_compute; reflexivity | reflexivity | reflexivity].
Defined.

Lemma early_exception_is_failure_witness :
  download_twitter_video env_no_ytdlp url0 tmp0 world0
  = (Ret (error_dict (msg_of_exception no_ytdlp)),
     log (ESpawn (cmd_args url0 tmp0 (49 :: lit "23"))) world0)
  /\ (download_twitter_video env_bad_utf8 url0 tmp0 world0).1
     = Ret (error_dict (msg_of_exception bad_utf8)).
Proof.
  assert (extract_tweet_id url0 = Some (49 :: lit "23")) as Hid
    by (vm_compute; reflexivity).
  split.
  - apply (proj1 (early_exception_is_failure env_no_ytdlp url0 tmp0 49
                    (lit "23") no_ytdlp world0 Hid)).
    reflexivity.
  - apply (proj2 (early_exception_is_failure env_bad_utf8 url0 tmp0 49
                    (lit "23") bad_utf8 world0 Hid) eq_refl 1%Z (inl bad_utf8)
             (inr stderr_no_video)).
    + reflexivity.
    + left. reflexivity.
Defined.

(** * More of the [/vx] command *)

(** A follow-up message of the command. *)
Definition is_followup (ev : event) : bool :=
  match ev with
  | EDiscord (FollowupSend _ _) | EDiscord (FollowupFile _ _ _) => true
  | _ => false
  end.

(** A follow-up text that everyone in the channel would see. *)
Definition is_public_text (ev : event) : bool :=
  match ev with
  | EDiscord (FollowupSend _ false) => true
  | _ => false
  end.

(** A call that the command makes between the fetch and the cleanup. *)
Definition is_relay_call (ev : event) : bool :=
  match ev with
  | EDiscord (FollowupSend _ true) | EDiscord (FollowupFile _ _ _)
  | EStat _ | EOpen _ => true
  | _ => false
  end.

Lemma count_cons p ev t :
  count p (ev :: t) = ((if p ev then 1 else 0) + count p t)%nat.
Proof.
  unfold count. rewrite filter_cons. destruct (p ev); by case_decide.
Qed.

Lemma count_nil p : count p [] = 0%nat.
Proof. done. Qed.

Lemma count_fetch_calls p calls :
  (forall ev, is_fetch_call ev = true -> p ev = false) ->
  Forall (fun ev => is_fetch_call ev = true) calls ->
  count p calls = 0%nat.
Proof.
  intros Hp. induction 1 as [|ev calls Hev _ IH]; [done|].
  by rewrite count_cons, (Hp _ Hev), IH.
Qed.

Section Command.
Context `{RT : Runtime} (E : env).

(** The run of an invocation that got its temporary directory [d]: it ends
    normally; the trace is the deferral, the creation of [d], the calls of
    the fetch, then the calls [tail] of the relay and the cleanup. *)
Lemma vx_run (url d : list N) (w : world) :
  contains (lit "twitter.com") url || contains (lit "x.com") url = true ->
  discord_answer E (count is_discord (w_trace w)) = None ->
  mkdtemp_answer E = inr d ->
  d ∉ w_dirs w ->
  exists dirs' calls tail,
    replace_twitter E url w
    = (Ret tt,
       World dirs' (children_after E url d (w_children w))
         (w_trace w ++ EDiscord DeferResponse :: EMkdtemp :: calls ++ tail))
    /\ Forall (fun ev => is_fetch_call ev = true) calls
    /\ (1 <= count is_followup tail <= 3)%nat
    /\ (count is_upload tail <= 1)%nat
    /\ count is_relay_call tail = (length tail - 1)%nat
    /\ count is_public_text tail = 0%nat
    /\ last tail = Some (ERmtree d)
    /\ ((forall k, discord_answer E k = None) ->
        count is_followup tail = 1%nat).
Proof.
  intros Hvalid Hdefer Hmk Hfresh.
  unfold replace_twitter. rewrite Hvalid. cbn [negb].
  unfold mbind, M_bind, bind, discord at 1. rewrite Hdefer. cbn [fails].
  unfold ret at 1. unfold mkdtemp. rewrite Hmk.
  cbn [log w_dirs w_children w_trace].
  destruct (decide (d ∈ w_dirs w)) as [|_]; [done|].
  unfold fetch_and_relay, relay_video, upload_video, report_unexpected,
    cleanup, dict_index. unfold_calls.
  match goal with
  | |- context [download_twitter_video E url d ?w2] =>
      destruct (download_run E url d w2) as (dct & calls & -> & Hcalls & _)
  end.
  run. cbn [w_dirs w_children w_trace].
  repeat
    (first
       [ match goal with
         | |- context [dct !! ?key] => destruct (dct !! key) eqn:?
         | |- context [stat_answer E ?k] => destruct (stat_answer E k) eqn:?
         | |- context [(?z >? max_size)%Z] => destruct (z >? max_size)%Z eqn:?
         | |- context [open_answer E] => destruct (open_answer E) eqn:?
         | |- context [discord_answer E ?k] =>
             destruct (discord_answer E k) eqn:?
         | |- context [match kind ?e with _ => _ end] =>
             destruct (kind e) eqn:?
         | |- context [rmtree_answer E] => destruct (rmtree_answer E) eqn:?
         end ];
     run; cbn [w_dirs w_children w_trace]).
  all: rewrite <- ?app_assoc; cbn [app].
  all: eexists _, calls, _; split; [reflexivity|]; split; [done|].
  all: rewrite ?count_cons, ?count_nil;
    cbn [is_followup is_upload is_relay_call is_public_text].
  all: cbn [length last].
  all: repeat split; try lia; try done.
  all: intros Hacc;
    repeat match goal with
           | H : discord_answer E _ = Some _ |- _ =>
               rewrite Hacc in H; discriminate H
           end.
Qed.

Lemma count_vx_trace p (t calls tail : list event) :
  p (EDiscord DeferResponse) = false ->
  p EMkdtemp = false ->
  (forall ev, is_fetch_call ev = true -> p ev = false) ->
  Forall (fun ev => is_fetch_call ev = true) calls ->
  count p (t ++ EDiscord DeferResponse :: EMkdtemp :: calls ++ tail)
  = (count p t + count p tail)%nat.
Proof.
  intros Hd Hm Hp Hcalls.
  rewrite count_app, !count_cons, Hd, Hm, count_app.
  by rewrite (count_fetch_calls p calls Hp Hcalls).
Qed.

(** An invocation that got its temporary directory sends at least one and
    at most three follow-ups, at most one of them with the video, and every
    text among them is ephemeral.  When Discord accepts every request, it
    sends exactly one follow-up. *)
Theorem vx_followups (url d : list N) (w : world) :
  contains (lit "twitter.com") url || contains (lit "x.com") url = true ->
  discord_answer E (count is_discord (w_trace w)) = None ->
  mkdtemp_answer E = inr d ->
  d ∉ w_dirs w ->
  let t := w_trace w in
  let t' := w_trace (replace_twitter E url w).2 in
  (count is_followup t + 1 <= count is_followup t' <= count is_followup t + 3)%nat
  /\ (count is_upload t' <= count is_upload t + 1)%nat
  /\ count is_public_text t' = count is_public_text t
  /\ ((forall k, discord_answer E k = None) ->
      count is_followup t' = S (count is_followup t)).
Proof.
  intros Hvalid Hdefer Hmk Hfresh.
  destruct (vx_run url d w Hvalid Hdefer Hmk Hfresh)
    as (dirs' & calls & tail & -> & Hcalls & Hf & Hup & _ & Hpub & _ & Hone).
  cbn [snd w_trace].
  rewrite !count_vx_trace by (done || by intros [] ?).
  repeat split; try lia. intros Hacc. rewrite (Hone Hacc). lia.
Qed.

(** An invocation that got its temporary directory leaves the process table
    as its fetch leaves it: it starts the downloader at most once, and
    nothing after the fetch starts or ends a process.  A child that the
    fetch left running is still running when the invocation ends. *)
Theorem vx_process_table (url d : list N) (w : world) :
  contains (lit "twitter.com") url || contains (lit "x.com") url = true ->
  discord_answer E (count is_discord (w_trace w)) = None ->
  mkdtemp_answer E = inr d ->
  d ∉ w_dirs w ->
  w_children (replace_twitter E url w).2
  = children_after E url d (w_children w).
Proof.
  intros Hvalid Hdefer Hmk Hfresh.
  by destruct (vx_run url d w Hvalid Hdefer Hmk Hfresh)
    as (dirs' & calls & tail & -> & _).
Qed.

(** Whatever the URL and the outside world, the command removes no directory
    that existed before it ran, and it leaves at most one more behind: the
    one it created, when its removal failed. *)
Theorem vx_directories (url : list N) (w : world) :
  let w' := (replace_twitter E url w).2 in
  w_dirs w ⊆ w_dirs w'
  /\ (w_dirs w' = w_dirs w
      \/ exists d,
           mkdtemp_answer E = inr d /\ (d ∉ w_dirs w)
           /\ is_Some (rmtree_answer E)
           /\ w_dirs w' = {[ d ]} ∪ w_dirs w).
Proof.
  cbv zeta.
  assert (w_dirs (replace_twitter E url w).2 = w_dirs w
          \/ exists d,
               mkdtemp_answer E = inr d /\ (d ∉ w_dirs w)
               /\ is_Some (rmtree_answer E)
               /\ w_dirs (replace_twitter E url w).2 = {[ d ]} ∪ w_dirs w)
    as Hcases.
  { unfold replace_twitter.
    destruct (negb _).
    { left. destruct (discord E _ w) as [r w1] eqn:Hrun.
      by apply quiet_discord in Hrun as [Hd _]. }
    unfold mbind, M_bind, bind.
    destruct (discord E DeferResponse w) as [[[]|e] w1] eqn:Hdefer;
      apply quiet_discord in Hdefer as [Hd1 _]; [|by left].
    unfold mkdtemp. destruct (mkdtemp_answer E) as [e|d] eqn:Hmk; [by left|].
    destruct (decide (d ∈ w_dirs w1)) as [|Hfresh]; [by left|].
    unfold try_finally.
    match goal with
    | |- context [try_except (fetch_and_relay E url d) ?h ?w2] =>
        destruct (guarded_body E url d w2) as (w3 & -> & Hdirs & _)
    end.
    cbn [w_dirs] in Hdirs. unfold cleanup, try_except, rmtree.
    rewrite Hd1 in Hfresh, Hdirs.
    destruct (rmtree_answer E) as [e|] eqn:Hrm; unfold ret;
      cbn [snd log w_dirs]; rewrite Hdirs.
    - right. exists d. eauto.
    - left. rewrite difference_union_distr_l_L, difference_diag_L.
      rewrite (left_id_L ∅ (∪)).
      by apply difference_disjoint_L, disjoint_singleton_r. }
  split; [|done].
  destruct Hcases as [-> | (d & _ & _ & _ & ->)]; [done|].
  apply union_subseteq_r.
Qed.

Lemma format_description_cut (video_data : gmap string (list N)) :
  format_description video_data
  = suppress_url_previews
      (take 280 (strip (dict_get video_data "description"))).
Proof.
  unfold format_description.
  generalize (strip (dict_get video_data "description")). intros fetched.
  destruct (truthy fetched) eqn:Ht; cbn [andb].
  - destruct (Nat.ltb_spec 280 (length fetched)) as [Hlt|Hge].
    + destruct (take 280 fetched) eqn:Hcut; [|done].
      destruct fetched; [done | discriminate].
    + rewrite take_ge by lia. by rewrite Ht.
  - rewrite Ht. by destruct fetched.
Qed.

(** The description of the summary is never empty and never longer than 350
    characters: 280 of the post, and the angle brackets around its links. *)
Theorem summary_description_bounds (video_data : gmap string (list N))
    (file_size : Z) :
  (1 <= length (embed_description (summary_embed video_data file_size))
   <= 350)%nat.
Proof.
  unfold summary_embed. cbn [embed_description].
  rewrite format_description_cut, suppress_is_re_sub. unfold str_or.
  set (cut := take 280 (strip (dict_get video_data "description"))).
  assert (length cut <= 280)%nat as Hcut
    by (subst cut; rewrite length_take; lia).
  destruct (re_sub_url_effect cut) as (_ & _ & Hhi).
  destruct (re_sub_url cut) as [|c shown] eqn:Hshown; cbn [truthy].
  - vm_compute. lia.
  - cbn [length] in *. lia.
Qed.

End Command.

Lemma vx_followups_witness :
  count is_followup (w_trace (replace_twitter env_ok url0 world0).2)
  = S (count is_followup (w_trace world0))
  /\ count is_public_text (w_trace (replace_twitter env_ok url0 world0).2)
     = count is_public_text (w_trace world0).
Proof.
  assert (tmp0 ∉ w_dirs world0) as Hfresh by apply not_elem_of_empty.
  destruct (vx_followups env_ok url0 tmp0 world0 eq_refl eq_refl eq_refl
              Hfresh) as (_ & _ & Hpub & Hone).
  split; [apply Hone; reflexivity | exact Hpub].
Defined.

Lemma vx_process_table_witness :
  w_children (replace_twitter env_timeout url0 world0).2
  = children_after env_timeout url0 tmp0 (w_children world0).
Proof.
  assert (tmp0 ∉ w_dirs world0) as Hfresh by apply not_elem_of_empty.
  exact (vx_process_table env_timeout url0 tmp0 world0 eq_refl eq_refl eq_refl
           Hfresh).
Defined.

(** ** The texts of the error messages *)

(** The length of a literal in a goal, worked out. *)
Ltac literal_lengths :=
  repeat match goal with
         | |- context [length (lit ?s)] =>
             let n := eval vm_compute in (length (lit s)) in
             change (length (lit s)) with n
         end.

(** Each error message that the command sends holds at most 1800 characters
    of the error it reports, between fixed lines: none is longer than 1900
    characters, however long the error text is. *)
Theorem error_messages_bounded (error_msg text : list N) (status : Z) (e : exn) :
  (length (msg_fetch_error error_msg) <= 1900)%nat
  /\ (length (msg_upload_error status text) <= 1900)%nat
  /\ (length (msg_unexpected e) <= 1900)%nat
  /\ ((length error_msg <= 1800)%nat ->
      exists before after,
        msg_fetch_error error_msg = before ++ error_msg ++ after).
Proof.
  unfold msg_fetch_error, msg_upload_error, msg_unexpected, fenced, nl.
  repeat split.
  - rewrite !length_app, length_take. literal_lengths. cbn [length]. lia.
  - rewrite !length_app, length_take. literal_lengths. cbn [length]. lia.
  - rewrite !length_app, length_take. literal_lengths. cbn [length]. lia.
  - intros Hshort. rewrite take_ge by done.
    exists (lit "❌ **Error al descargar video:**" ++ [10] ++ lit "```" ++ [10]),
      ([10] ++ lit "```").
    by rewrite <- !app_assoc.
Qed.

Lemma error_messages_bounded_witness :
  exists before after,
    msg_fetch_error msg_timeout = before ++ msg_timeout ++ after.
Proof.
  apply (error_messages_bounded msg_timeout [] 0 (ValueError [])).
  vm_compute. lia.
Defined.
